(** * Pose training: a functional model of [ultralytics/yolo/v8/pose/train.py]

    The file models the two classes of the module:
    - [PoseTrainer] (constructor, [get_model], [criterion]) as functions over
      an explicit trainer state that record every call made into the
      surrounding framework, and
    - [PoseLoss] ([__call__] and [kpts_decode]) as functions over tensors.

    Tensors are nested lists of exact rationals ([Qc]); rounding, infinities
    and NaN of the floating-point kernels are outside the model.  A Python
    exception is the result [None].  Everything the module imports from the
    framework (the assigner, the loss kernels, the parent classes) is a
    parameter of the corresponding section. *)

From Stdlib Require Import QArith Qcanon.
From stdpp Require Import gmap strings list numbers.
From stdpp Require pretty.

Set Default Proof Using "Type".
Open Scope Qc_scope.

(** ** Tensors *)

Abbreviation vec := (list Qc).
Abbreviation mat := (list (list Qc)).
Abbreviation ten3 := (list (list (list Qc))).

(** A box is a row of a [(.., 4)] tensor. *)
Record Box := mkBox { c0 : Qc; c1 : Qc; c2 : Qc; c3 : Qc }.

Definition box_map (f : Qc → Qc) (b : Box) : Box :=
  mkBox (f (c0 b)) (f (c1 b)) (f (c2 b)) (f (c3 b)).

Definition Qc_of_nat (n : nat) : Qc := Q2Qc (inject_Z (Z.of_nat n)).

Definition half : Qc := Q2Qc (1 # 2).
Definition two : Qc := 1 + 1.

(** [t.sum()] of a 1-D and of a 3-D tensor. *)
Definition vsum (l : vec) : Qc := foldr Qcplus 0 l.
Definition sum3 (t : ten3) : Qc := vsum (concat (concat t)).

(** Python's builtin [max(a, b)] keeps [a] unless [b > a]. *)
Definition py_max (a b : Qc) : Qc := if decide (a < b) then b else a.

(** *** Strided slices of the last axis

    [stride_upd f s k row] is the in-place update [row[s::k] = f(row[s::k])]
    and [stride_get s k row] the slice [row[s::k]]. *)
Fixpoint stride_upd {A} (f : A → A) (skip step : nat) (l : list A) : list A :=
  match l with
  | [] => []
  | x :: l' =>
      match skip with
      | O => f x :: stride_upd f (step - 1) step l'
      | S n => x :: stride_upd f n step l'
      end
  end.

Fixpoint stride_get {A} (skip step : nat) (l : list A) : list A :=
  match l with
  | [] => []
  | x :: l' =>
      match skip with
      | O => x :: stride_get (step - 1) step l'
      | S n => stride_get n step l'
      end
  end.

(** *** Broadcasting along the row axis

    [expand n l] broadcasts the operand [l] of an in-place operation to the
    [n] rows of its target: the sizes agree, or the operand has one row. *)
Definition expand {A} (n : nat) (l : list A) : option (list A) :=
  if decide (length l = n) then Some l
  else match l with
       | [x] => Some (replicate n x)
       | _ => None
       end.

(** [rows_inplace f t l] is [t op= l] where [l] has one entry per row. *)
Definition rows_inplace {A B} (f : A → B → A) (t : list A) (l : list B)
  : option (list A) :=
  l' ← expand (length t) l; Some (zip_with f t l').

(** [bzip f l1 l2] is the out-of-place [l1 op l2]: either side may have a
    single row. *)
Definition bzip {A B C} (f : A → B → C) (l1 : list A) (l2 : list B)
  : option (list C) :=
  if decide (length l1 = length l2) then Some (zip_with f l1 l2)
  else match l1, l2 with
       | [x], _ => Some (f x <$> l2)
       | _, [y] => Some ((λ a, f a y) <$> l1)
       | _, _ => None
       end.

(** *** Indexing *)

(** [l[m]] for a boolean mask [m]: the shapes must agree. *)
Fixpoint select {A} (m : list bool) (l : list A) : list A :=
  match m, l with
  | b :: m', x :: l' => if b then x :: select m' l' else select m' l'
  | _, _ => []
  end.

Definition mask_select {A} (m : list bool) (l : list A) : option (list A) :=
  if decide (length m = length l) then Some (select m l) else None.

(** [l[z]] for an integer [z]; negative indices count from the end. *)
Definition py_get {A} (l : list A) (z : Z) : option A :=
  if decide (0 ≤ z)%Z then l !! Z.to_nat z
  else if decide (- Z.of_nat (length l) ≤ z)%Z
       then l !! Z.to_nat (z + Z.of_nat (length l))
       else None.

(** [l[idx]] for an integer tensor [idx]. *)
Definition index_rows {A} (l : list A) (idx : list Z) : option (list A) :=
  mapM (py_get l) idx.

(** [m.sum()] of a boolean mask, used as a truth value. *)
Definition mask_count (m : list bool) : nat := length (filter (λ b, b = true) m).
Definition mask_count2 (m : list (list bool)) : nat := mask_count (concat m).

(** ** [class PoseLoss] *)

Module PoseLoss.

(** *** [kpts_decode] *)

(** The five statements of the body, on the value of [y]. *)
Definition scale_xy (y : mat) : mat :=
  stride_upd (λ v, v * two) 1 3 <$> (stride_upd (λ v, v * two) 0 3 <$> y).

Definition shift_x (ax : vec) (y : mat) : option mat :=
  rows_inplace (λ row a, stride_upd (λ v, v + a) 0 3 row) y ((λ a, a - half) <$> ax).

Definition shift_y (ay : vec) (y : mat) : option mat :=
  rows_inplace (λ row a, stride_upd (λ v, v + a) 1 3 row) y ((λ a, a - half) <$> ay).

(** The value returned, as a function of the values of the arguments. *)
Definition kpts_decode (anchor_points : list (Qc * Qc)) (pred_kpts : mat)
    (bbox : list Box) : option mat :=
  let y := pred_kpts in
  let y := scale_xy y in
  y ← shift_x (fst <$> anchor_points) y;
  y ← shift_y (snd <$> anchor_points) y;
  Some y.

(** Tensors are objects: a store maps the identity of a tensor to its
    current value, and the in-place statements update the store. *)
Definition loc := nat.
Abbreviation store := (gmap nat (list (list Qc))).

Definition fresh_loc (σ : store) : loc := fresh (dom σ).

(** [t.clone()] *)
Definition clone (t : loc) (σ : store) : option (loc * store) :=
  v ← σ !! t;
  let y := fresh_loc σ in Some (y, <[y := v]> σ).

(** [t[...] op= ...] *)
Definition inplace (t : loc) (f : mat → option mat) (σ : store) : option store :=
  v ← σ !! t; v' ← f v; Some (<[t := v']> σ).

Definition kpts_decode_st (anchor_points : list (Qc * Qc)) (pred_kpts : loc)
    (bbox : list Box) (σ : store) : option (loc * store) :=
  '(y, σ) ← clone pred_kpts σ;
  σ ← inplace y (λ v, Some (stride_upd (λ v, v * two) 0 3 <$> v)) σ;
  σ ← inplace y (λ v, Some (stride_upd (λ v, v * two) 1 3 <$> v)) σ;
  σ ← inplace y (shift_x (fst <$> anchor_points)) σ;
  σ ← inplace y (shift_y (snd <$> anchor_points)) σ;
  Some (y, σ).


(** *** Inputs of [__call__] *)

(** A feature map: a contiguous [(b, c, h, w)] tensor, of which the method
    reads the shape and takes a view. *)
Record FeatMap := mkFeat {
  f_b : nat; f_c : nat; f_h : nat; f_w : nat;
  f_data : vec
}.

(** [preds] is [(feats, pred_kpts)] in training and
    [(out, (feats, pred_kpts))] in validation; [pred_kpts] is
    [(b, 3 * nkpt, anchors)]. *)
Inductive Preds :=
| PredsTrain (feats : list FeatMap) (pred_kpts : ten3)
| PredsVal (out : ten3) (feats : list FeatMap) (pred_kpts : ten3).

(** The entries of the [batch] dictionary the method reads. *)
Record Batch := mkBatch {
  batch_idx : vec;          (* (N,)   image index of each label *)
  cls : vec;                (* (N, 1) *)
  bboxes : list Box;        (* (N, 4) *)
  keypoints : mat           (* (N, 3 * nkpt) *)
}.

(** The five outputs of the assigner: labels, boxes, scores, foreground mask
    and ground-truth index of every anchor. *)
Record Assigned := mkAssigned {
  a_labels : list (list Z);
  a_bboxes : list (list Box);
  a_scores : ten3;
  a_fg_mask : list (list bool);
  a_gt_idx : list (list Z)
}.

(** The attributes set by the constructor of the parent class [Loss], which
    the detection trainer defines. *)
Record Loss := mkLoss {
  device : string;
  no : nat; reg_max : nat; nc : nat;
  stride : vec;
  hyp_box : Qc; hyp_cls : Qc; hyp_dfl : Qc;
  preprocess : list (Qc * Qc * Box) → nat → Box → option (list (list (Qc * Box)));
  bbox_decode : list (Qc * Qc) → ten3 → option (list (list Box));
  assigner : ten3 → list (list Box) → list (Qc * Qc) → list (list Qc) →
             list (list Box) → list (list bool) → option Assigned;
  bce : ten3 → ten3 → option ten3;
  bbox_loss : ten3 → list (list Box) → list (Qc * Qc) → list (list Box) → ten3 →
              Qc → list (list bool) → option (Qc * Qc)
}.

(** The attributes of [self]. *)
Record Self := mkSelf {
  base :> Loss;
  nkpt : nat;
  bce_pose : mat → mat → option Qc;
  keypoint_loss : mat → mat → list (list bool) → vec → option Qc
}.

(** What the module imports from [torch] and from the rest of the package. *)
Class Framework := {
  Model : Type;
  sigmoid : Qc → Qc;
  make_anchors : list FeatMap → vec → Qc → option (list (Qc * Qc) * vec);
  xyxy2xywh : list Box → option (list Box);
  Loss_init : Model → option Loss;                 (* Loss.__init__ *)
  head_nkpt : Model → option nat;                  (* model.model[-1].nkpt *)
  BCEWithLogitsLoss : mat → mat → option Qc;       (* nn.BCEWithLogitsLoss() *)
  KeypointLoss : string → nat → mat → mat → list (list bool) → vec → option Qc
}.

(** *** [__init__] *)
Definition __init__ `{Framework} (model : Model) : option Self :=
  b ← Loss_init model;
  n ← head_nkpt model;
  Some (mkSelf b n BCEWithLogitsLoss (KeypointLoss (device b) n)).

(** *** Shape operations *)

Definition reshape2 {A} (rows k : nat) (l : list A) : list (list A) :=
  (λ i, take k (drop (i * k) l)) <$> seq 0 rows.

(** [x.view(b, c, -1)] *)
Definition view3 (b c : nat) (x : FeatMap) : option ten3 :=
  let n := length (f_data x) in
  if decide (b * c = 0)%nat then None
  else if decide (n mod (b * c) = 0)%nat
       then let k := (n / (b * c))%nat in
            Some (reshape2 c k <$> reshape2 b (c * k) (f_data x))
       else None.

(** [torch.cat(ts, 2)] of tensors that agree in the first two axes. *)
Definition cat2 (ts : list ten3) : option ten3 :=
  match ts with
  | [] => None
  | t :: ts' => Some (foldl (zip_with (zip_with app)) t ts')
  end.

(** [t.split((n1, n2), 1)] of a tensor with [size] channels. *)
Definition split1 (n1 n2 size : nat) (t : ten3) : option (ten3 * ten3) :=
  if decide (n1 + n2 = size)%nat then Some (take n1 <$> t, drop n1 <$> t)
  else None.

Definition transpose (m : mat) : mat :=
  (λ j, (λ row, default 0 (row !! j)) <$> m) <$> seq 0 (length (default [] (head m))).

(** [t.permute(0, 2, 1).contiguous()] *)
Definition permute021 (t : ten3) : ten3 := transpose <$> t.

(** [torch.cat((batch_idx.view(-1, 1), cls.view(-1, 1), bboxes), 1)] *)
Definition cat_targets (bi cl : vec) (bb : list Box) : option (list (Qc * Qc * Box)) :=
  if decide (length bi = length cl ∧ length cl = length bb)
  then Some (zip (zip bi cl) bb) else None.

Definition box_sum (b : Box) : Qc := c0 b + c1 b + c2 b + c3 b.
Definition anchor_scale (p : Qc * Qc) (s : Qc) : Qc * Qc := (p.1 * s, p.2 * s).
Definition box_scale (b : Box) (s : Qc) : Box := box_map (λ v, v * s) b.
Definition box_div (b : Box) (s : Qc) : Box := box_map (λ v, v / s) b.
Definition b2q (b : bool) : Qc := if b then 1 else 0.

(** *** The keypoint loop *)

(** The local variables of one iteration of the loop over the images, for an
    image that has foreground anchors. *)
Record KptFrame := mkKptFrame {
  k_i : nat;
  k_idx : list Z;
  k_gt_kpt : mat;
  k_xywh : list Box;
  k_area : vec;
  k_pred_kpt : mat;
  k_kpt_mask : list (list bool);
  k_loc : Qc;      (* self.keypoint_loss(pred_kpt, gt_kpt, kpt_mask, area) *)
  k_vis : Qc       (* self.bce_pose(pred_kpt[:, 2::3], kpt_mask.float()) *)
}.

Section Call.
Context `{Framework} (self : Self).

Definition kpt_step (batch_idx : vec) (keypoints : mat)
    (anchor_points : list (Qc * Qc)) (stride_tensor : vec) (pred_kpts : ten3)
    (target_bboxes : list (list Box)) (fg_mask : list (list bool))
    (target_gt_idx : list (list Z)) (i : nat) : option (option KptFrame) :=
  fg ← fg_mask !! i;
  if decide (mask_count fg = 0)%nat then Some None
  else
    gt_idx_i ← target_gt_idx !! i;
    idx ← mask_select fg gt_idx_i;
    rows ← mask_select ((λ v, bool_decide (v = Qc_of_nat i)) <$> batch_idx) keypoints;
    gt_kpt ← index_rows rows idx;
    st ← mask_select fg stride_tensor;
    gt_kpt ← rows_inplace (λ row s, stride_upd (λ v, v / s) 0 3 row) gt_kpt st;
    st ← mask_select fg stride_tensor;
    gt_kpt ← rows_inplace (λ row s, stride_upd (λ v, v / s) 1 3 row) gt_kpt st;
    tb_i ← target_bboxes !! i;
    tb ← mask_select fg tb_i;
    xywh ← xyxy2xywh tb;
    let area := (λ b, c2 b * c3 b) <$> xywh in
    ap ← mask_select fg anchor_points;
    pk_i ← pred_kpts !! i;
    pk ← mask_select fg pk_i;
    pred_kpt ← kpts_decode ap pk xywh;
    let kpt_mask := (λ row, (λ v, bool_decide (v ≠ 0)) <$> stride_get 2 3 row) <$> gt_kpt in
    l_loc ← keypoint_loss self pred_kpt gt_kpt kpt_mask area;
    l_vis ← bce_pose self (stride_get 2 3 <$> pred_kpt) ((λ row, b2q <$> row) <$> kpt_mask);
    Some (Some (mkKptFrame i idx gt_kpt xywh area pred_kpt kpt_mask l_loc l_vis)).


(** *** [__call__] *)

(** The local variables of the method when it returns. *)
Record Frame := mkFrame {
  fr_pred_distri : ten3;
  fr_pred_scores : ten3;
  fr_pred_kpts : ten3;
  fr_imgsz : Qc * Qc;                      (* (h, w) *)
  fr_anchor_points : list (Qc * Qc);
  fr_stride_tensor : vec;
  fr_batch_size : nat;
  fr_gt_labels : list (list Qc);
  fr_gt_bboxes : list (list Box);
  fr_mask_gt : list (list bool);
  fr_pred_bboxes : list (list Box);
  fr_assigned : Assigned;                  (* what self.assigner returned *)
  fr_target_bboxes : list (list Box);
  fr_target_scores : ten3;
  fr_fg_mask : list (list bool);
  fr_target_gt_idx : list (list Z);
  fr_target_scores_sum : Qc;
  fr_kpt : list KptFrame;
  fr_terms : vec;                          (* loss before the gains *)
  fr_loss : vec;
  fr_result : Qc * vec
}.

Definition unpack (preds : Preds) : list FeatMap * ten3 :=
  match preds with
  | PredsTrain feats pred_kpts => (feats, pred_kpts)
  | PredsVal _ feats pred_kpts => (feats, pred_kpts)
  end.

Definition run (preds : Preds) (batch : Batch) : option Frame :=
  let '(feats, pred_kpts) := unpack preds in
  f0 ← head feats;
  views ← mapM (view3 (f_b f0) (no self)) feats;
  cat ← cat2 views;
  '(pred_distri, pred_scores) ← split1 (reg_max self * 4) (nc self) (no self) cat;
  let pred_scores := permute021 pred_scores in
  let pred_distri := permute021 pred_distri in
  let pred_kpts := permute021 pred_kpts in
  s0 ← stride self !! 0%nat;
  let imgsz := (Qc_of_nat (f_h f0) * s0, Qc_of_nat (f_w f0) * s0) in
  '(anchor_points, stride_tensor) ← make_anchors feats (stride self) half;
  let batch_size := length pred_scores in
  let batch_idx_ := batch_idx batch in
  targets ← cat_targets batch_idx_ (cls batch) (bboxes batch);
  targets ← preprocess self targets batch_size
              (mkBox imgsz.2 imgsz.1 imgsz.2 imgsz.1);
  let gt_labels := (λ row : list (Qc * Box), fst <$> row) <$> targets in
  let gt_bboxes := (λ row : list (Qc * Box), snd <$> row) <$> targets in
  let mask_gt := (λ row : list Box, (λ b, bool_decide (0 < box_sum b)) <$> row) <$> gt_bboxes in
  pred_bboxes ← bbox_decode self anchor_points pred_distri;
  scaled_bboxes ← mapM (λ row : list Box, bzip box_scale row stride_tensor) pred_bboxes;
  scaled_anchors ← bzip anchor_scale anchor_points stride_tensor;
  assigned ← assigner self ((λ m : mat, (λ row : vec, sigmoid <$> row) <$> m) <$> pred_scores)
               scaled_bboxes scaled_anchors gt_labels gt_bboxes mask_gt;
  let target_bboxes := a_bboxes assigned in
  let target_scores := a_scores assigned in
  let fg_mask := a_fg_mask assigned in
  let target_gt_idx := a_gt_idx assigned in
  let target_scores_sum := py_max (sum3 target_scores) 1 in
  e ← bce self pred_scores target_scores;
  let l3 := sum3 e / target_scores_sum in
  '(target_bboxes, l0, l4, frames) ←
    (if decide (mask_count2 fg_mask = 0)%nat
     then Some (target_bboxes, 0, 0, [])
     else
       target_bboxes ← mapM (λ row : list Box, rows_inplace box_div row stride_tensor) target_bboxes;
       '(l0, l4) ← bbox_loss self pred_distri pred_bboxes anchor_points target_bboxes
                     target_scores target_scores_sum fg_mask;
       let keypoints := keypoints batch in
       let keypoints := stride_upd (λ v, v * imgsz.2) 0 3 <$> keypoints in
       let keypoints := stride_upd (λ v, v * imgsz.1) 1 3 <$> keypoints in
       steps ← mapM (kpt_step batch_idx_ keypoints anchor_points stride_tensor
                       pred_kpts target_bboxes fg_mask target_gt_idx)
                    (seq 0 batch_size);
       Some (target_bboxes, l0, l4, omap id steps));
  let l1 := foldl (λ acc f, acc + k_loc f) 0 frames in
  let l2 := foldl (λ acc f, acc + k_vis f) 0 frames in
  let terms := [l0; l1; l2; l3; l4] in
  let loss := [l0 * hyp_box self;
               l1 * (hyp_box self / Qc_of_nat batch_size);
               l2 * (hyp_box self / Qc_of_nat batch_size);
               l3 * hyp_cls self;
               l4 * hyp_dfl self] in
  Some (mkFrame pred_distri pred_scores pred_kpts imgsz anchor_points stride_tensor
          batch_size gt_labels gt_bboxes mask_gt pred_bboxes assigned
          target_bboxes target_scores fg_mask target_gt_idx target_scores_sum
          frames terms loss (vsum loss * Qc_of_nat batch_size, loss)).

Definition __call__ (preds : Preds) (batch : Batch) : option (Qc * vec) :=
  fr_result <$> run preds batch.

End Call.

End PoseLoss.

(** ** [class PoseTrainer] *)

Module PoseTrainer.
Import PoseLoss.

(** The Python values the trainer handles.  [PObj] is an object that defines
    neither [__bool__] nor [__len__]; [PSized] one whose truth value is that
    of its length (a dictionary of weights, a sequence). *)
Inductive pyval :=
| PNone
| PBool (b : bool)
| PInt (z : Z)
| PStr (s : string)
| PObj (id : nat)
| PSized (id : nat) (len : nat).

(** The truth value [if v:] tests. *)
Definition truthy (v : pyval) : bool :=
  match v with
  | PNone => false
  | PBool b => b
  | PInt z => negb (z =? 0)%Z
  | PStr s => negb (String.eqb s "")
  | PObj _ => true
  | PSized _ n => negb (n =? 0)%nat
  end.

Section Trainer.
Context `{Framework}.

(** The attributes of the trainer the module reads or sets. *)
Record Trainer := mkTrainer {
  data : gmap string pyval;
  model : Model;
  compute_loss : option Self       (* [None]: the attribute is not set *)
}.

(** The calls that leave the module, in the order they are made. *)
Inductive Call :=
| CallDetectionTrainer (cfg : pyval) (overrides : gmap string pyval)
| CallPoseModel (cfg : pyval) (ch : Z) (nc nkpt : pyval) (verbose : pyval)
| CallLoad (m : Model) (weights : pyval)
| CallDeParallel (m : Model)
| CallLossInit (m : Model)
| CallComputeLoss (preds : Preds) (batch : Batch).

(** What the trainer imports: the parent constructor, the model class and
    [de_parallel]. *)
Record Imports := mkImports {
  DEFAULT_CFG : pyval;
  DetectionTrainer_init : pyval → gmap string pyval → option Trainer;
  PoseModel : pyval → Z → pyval → pyval → pyval → option Model;
  load : Model → pyval → option Model;
  de_parallel : Model → option Model
}.

(** A computation logs its calls and may raise. *)
Definition M (A : Type) : Type := list Call → option (A * list Call).

#[export] Instance M_ret : MRet M := λ A x log, Some (x, log).
#[export] Instance M_bind : MBind M := λ A B f m log,
  match m log with
  | Some (x, log') => f x log'
  | None => None
  end.

(** [call c r]: make the call [c], whose result is [r]. *)
Definition call {A} (c : Call) (r : option A) : M A :=
  λ log, x ← r; Some (x, log ++ [c]).

Definition lift {A} (r : option A) : M A := λ log, x ← r; Some (x, log).

Variable imp : Imports.

Definition __init__ (cfg : option pyval) (overrides : option (gmap string pyval))
  : M Trainer :=
  let cfg := default (DEFAULT_CFG imp) cfg in
  let overrides := match overrides with None => ∅ | Some d => d end in
  let overrides := <["task" := PStr "pose"]> overrides in
  call (CallDetectionTrainer cfg overrides) (DetectionTrainer_init imp cfg overrides).

Definition get_model (self : Trainer) (cfg weights verbose : option pyval)
  : M Model :=
  let cfg := default PNone cfg in
  let weights := default PNone weights in
  let verbose := default (PBool true) verbose in
  nc ← lift (data self !! "nc");
  nkpt ← lift (data self !! "nkpt");
  model ← call (CallPoseModel cfg 3 nc nkpt verbose) (PoseModel imp cfg 3 nc nkpt verbose);
  model ← (if truthy weights
           then call (CallLoad model weights) (load imp model weights)
           else mret model);
  mret model.

Definition criterion (self : Trainer) (preds : Preds) (batch : Batch)
  : M (Qc * vec * Trainer) :=
  self ← match compute_loss self with
         | Some _ => mret self
         | None =>
             m ← call (CallDeParallel (model self)) (de_parallel imp (model self));
             l ← call (CallLossInit m) (PoseLoss.__init__ m);
             mret (mkTrainer (data self) (model self) (Some l))
         end;
  l ← lift (compute_loss self);
  r ← call (CallComputeLoss preds batch) (PoseLoss.__call__ l preds batch);
  mret (r, self).

End Trainer.

End PoseTrainer.

(** ** The methods with effects, and [train]

    [get_validator], [plot_training_samples], [plot_metrics] and the module
    function [train] read and assign attributes of an object and call into
    the framework.  A computation of type [E S A] runs on a state [S] and
    returns or raises; the state it leaves is kept when it raises. *)

Module TrainerMethods.
Import PoseLoss PoseTrainer.

Definition E (S A : Type) : Type := S → option A * S.

#[export] Instance E_ret {S} : MRet (E S) := λ A x s, (Some x, s).
#[export] Instance E_bind {S} : MBind (E S) := λ A B f m s,
  match m s with
  | (Some x, s') => f x s'
  | (None, s') => (None, s')
  end.

(** Raise when [r] is [None]. *)
Definition elift {S A} (r : option A) : E S A := λ s, (r, s).

(** Python's [a or b]. *)
Definition py_or (a b : pyval) : pyval := if truthy a then a else b.

(** [f'train_batch{ni}.jpg'] *)
Definition train_batch_name (ni : Z) : string :=
  "train_batch" +:+ pretty.pretty ni +:+ ".jpg".

Section Methods.
Context `{Framework}.

(** The attributes of the trainer these methods read or assign; [None]: the
    attribute is not set. *)
Record Attrs := mkAttrs {
  loss_names : option (list string);
  test_loader : option pyval;
  save_dir : option pyval;
  args : option pyval;
  csv : option pyval
}.

(** The calls that leave the module, in the order they return. *)
Inductive Event :=
| EvCopy (x : pyval)
| EvPoseValidator (test_loader save_dir args : pyval)
| EvSqueeze (t : pyval)
| EvPathJoin (dir : pyval) (name : string)
| EvPlotImages (images batch_idx cls bboxes kpts paths fname : pyval)
| EvPlotResults (file : pyval) (pose : bool)
| EvTrainer (c : Call)
| EvYOLO (model : pyval)
| EvYOLOTrain (yolo : pyval) (args : gmap string pyval)
| EvTrain (trainer : Trainer).

(** What these functions import. *)
Record Externals := mkExternals {
  copy : pyval → option pyval;
  PoseValidator : pyval → pyval → pyval → option pyval;
  squeeze : pyval → option pyval;                        (* t.squeeze(-1) *)
  path_join : pyval → string → option pyval;             (* dir / name *)
  plot_images : pyval → pyval → pyval → pyval → pyval → pyval → pyval → option unit;
  plot_results : pyval → bool → option unit;
  YOLO : pyval → option pyval;
  YOLO_train : pyval → gmap string pyval → option unit;  (* the [train] method of a YOLO object *)
  Trainer_train : Trainer → option unit                  (* trainer.train() *)
}.

(** [ecall ev r]: make the call [ev], whose result is [r]. *)
Definition ecall {S A} (ev : Event) (r : option A) : E (S * list Event) A :=
  λ s, (r, (s.1, if r is Some _ then s.2 ++ [ev] else s.2)).

(** [self.name] and [self.loss_names = v] *)
Definition attr {A} (get : Attrs → option A) : E (Attrs * list Event) A :=
  λ s, (get s.1, s).

Definition set_loss_names (v : list string) : E (Attrs * list Event) unit :=
  λ s, (Some (),
        (mkAttrs (Some v) (test_loader s.1) (save_dir s.1) (args s.1) (csv s.1), s.2)).

Variable ext : Externals.

Definition get_validator : E (Attrs * list Event) pyval :=
  _ ← set_loss_names ["box_loss"; "pose_loss"; "kobj_loss"; "cls_loss"; "dfl_loss"];
  tl ← attr test_loader;
  sd ← attr save_dir;
  a ← attr args;
  a' ← ecall (EvCopy a) (copy ext a);
  ecall (EvPoseValidator tl sd a') (PoseValidator ext tl sd a').

Definition plot_training_samples (batch : gmap string pyval) (ni : Z)
  : E (Attrs * list Event) unit :=
  images ← elift (batch !! "img");
  kpts ← elift (batch !! "keypoints");
  c ← elift (batch !! "cls");
  cls ← ecall (EvSqueeze c) (squeeze ext c);
  bboxes ← elift (batch !! "bboxes");
  paths ← elift (batch !! "im_file");
  batch_idx ← elift (batch !! "batch_idx");
  sd ← attr save_dir;
  fname ← ecall (EvPathJoin sd (train_batch_name ni))
             (path_join ext sd (train_batch_name ni));
  ecall (EvPlotImages images batch_idx cls bboxes kpts paths fname)
    (plot_images ext images batch_idx cls bboxes kpts paths fname).

Definition plot_metrics : E (Attrs * list Event) unit :=
  f ← attr csv;
  ecall (EvPlotResults f true) (plot_results ext f true).

(** *** [train]

    The state is the attributes of the object passed as [cfg] (those of
    [DEFAULT_CFG] when the argument is omitted). *)

Definition getattr (name : string) : E (gmap string pyval * list Event) pyval :=
  λ s, (s.1 !! name, s).

Definition setattr (name : string) (v : pyval) : E (gmap string pyval * list Event) unit :=
  λ s, (Some (), (<[name := v]> s.1, s.2)).

(** [PoseTrainer(overrides=args)]: the calls of the constructor join the
    log. *)
Definition construct {S} (m : M Trainer) : E (S * list Event) Trainer :=
  λ s, match m [] with
       | Some (t, calls) => (Some t, (s.1, s.2 ++ (EvTrainer <$> calls)))
       | None => (None, s)
       end.

Variable imp : Imports.

Definition train (use_python : pyval) : E (gmap string pyval * list Event) unit :=
  m ← getattr "model";
  let model := py_or m (PStr "yolov8n-pose.yaml") in
  d ← getattr "data";
  let data := py_or d (PStr "coco128-kpt.yaml") in
  dv ← getattr "device";
  let device := match dv with PNone => PStr "" | _ => dv end in
  _ ← setattr "batch" (PInt 1);
  let args : gmap string pyval :=
    <["device" := device]> (<["data" := data]> (<["model" := model]> ∅)) in
  if truthy use_python then
    y ← ecall (EvYOLO model) (YOLO ext model);
    ecall (EvYOLOTrain y args) (YOLO_train ext y args)
  else
    trainer ← construct (PoseTrainer.__init__ imp None (Some args));
    ecall (EvTrain trainer) (Trainer_train ext trainer).

End Methods.

End TrainerMethods.

(** * Properties *)

Import PoseLoss.

(** ** Strided slices *)

Lemma length_stride_upd {A} (f : A → A) s k (l : list A) :
  length (stride_upd f s k l) = length l.
Proof.
  revert s. induction l as [|x l IH]; intros [|s]; simpl; auto.
Qed.

(** [row[s::k] = f(row[s::k])] changes the positions [s], [s + k], ... *)
Lemma lookup_stride_upd {A} (f : A → A) s k (l : list A) j :
  (0 < k)%nat →
  stride_upd f s k l !! j =
    if decide (s ≤ j ∧ (j - s) mod k = 0)%nat then f <$> l !! j else l !! j.
Proof.
  intros Hk. revert s j. induction l as [|x l IH]; intros s j.
  - simpl. by case_decide.
  - destruct s as [|s]; destruct j as [|j]; simpl.
    + rewrite decide_True; [done|]. split; [lia|]. by rewrite Nat.Div0.mod_0_l.
    + rewrite IH. destruct k as [|k]; [lia|].
      replace (S k - 1)%nat with k by lia.
      repeat case_decide; try done; exfalso.
      * destruct H as [Hle Hm]. apply H0. split; [lia|].
        replace (S j) with (j - k + 1 * S k)%nat by lia.
        by rewrite Nat.Div0.mod_add.
      * destruct H0 as [_ Hm].
        destruct (decide (k ≤ j)%nat) as [Hle|Hgt].
        -- apply H. split; [done|].
           replace (S j) with (j - k + 1 * S k)%nat in Hm by lia.
           by rewrite Nat.Div0.mod_add in Hm.
        -- rewrite Nat.mod_small in Hm; lia.
    + done.
    + rewrite IH. repeat case_decide; try done; exfalso; simpl in *.
      * apply H0. destruct H. split; [lia|done].
      * apply H. destruct H0. split; [lia|done].
Qed.

(** [row[s::k]] has the entries at [s], [s + k], ... *)
Lemma lookup_stride_get {A} s k (l : list A) j :
  (0 < k)%nat → stride_get s k l !! j = l !! (s + j * k)%nat.
Proof.
  intros Hk. revert s j. induction l as [|x l IH]; intros s j.
  - simpl. by rewrite !lookup_nil.
  - destruct s as [|s]; simpl.
    + destruct j as [|j]; [done|].
      simpl. rewrite IH.
      by replace (k + j * k)%nat with (S (k - 1 + j * k)) by lia.
    + by rewrite IH.
Qed.

Lemma stride_upd_fmap_comm {A} (f g : A → A) s k (l : list A) :
  (∀ x, f (g x) = g (f x)) →
  stride_upd f s k (g <$> l) = g <$> stride_upd f s k l.
Proof.
  intros Hc. revert s. induction l as [|x l IH]; intros [|s]; simpl; auto;
    by rewrite IH, ?Hc.
Qed.

(** ** Masks and indices *)

Lemma select_fmap {A B} (f : A → B) m (l : list A) :
  select m (f <$> l) = f <$> select m l.
Proof.
  revert l. induction m as [|b m IH]; intros [|x l]; simpl; auto.
  destruct b; simpl; by rewrite IH.
Qed.

Lemma length_select {A} m (l : list A) :
  length m = length l → length (select m l) = mask_count m.
Proof.
  unfold mask_count. revert l. induction m as [|b m IH]; intros [|x l] Hl;
    simpl in *; try done.
  destruct b.
  - rewrite filter_cons_True by done. simpl. f_equal. apply IH. lia.
  - rewrite filter_cons_False by done. apply IH. lia.
Qed.

(** The entries a mask keeps are entries of the tensor at a position where
    the mask is set. *)
Lemma lookup_select {A} m (l : list A) r x :
  select m l !! r = Some x → ∃ a, m !! a = Some true ∧ l !! a = Some x.
Proof.
  revert l r. induction m as [|b m IH]; intros [|y l] r Hr; simpl in *;
    try by rewrite lookup_nil in Hr.
  destruct b.
  - destruct r as [|r]; simpl in *.
    + exists 0%nat. by simplify_eq.
    + destruct (IH _ _ Hr) as (a & ? & ?). by exists (S a).
  - destruct (IH _ _ Hr) as (a & ? & ?). by exists (S a).
Qed.


Lemma mask_select_Some {A} m (l : list A) k :
  mask_select m l = Some k → length m = length l ∧ k = select m l.
Proof. unfold mask_select. case_decide; naive_solver. Qed.

Lemma py_get_fmap {A B} (f : A → B) (l : list A) z :
  py_get (f <$> l) z = f <$> py_get l z.
Proof.
  unfold py_get. rewrite length_fmap.
  repeat case_decide; by rewrite ?list_lookup_fmap.
Qed.

Lemma py_get_elem {A} (l : list A) z x : py_get l z = Some x → x ∈ l.
Proof.
  unfold py_get. repeat case_decide; try done; apply list_elem_of_lookup_2.
Qed.


(** ** Broadcasting *)

Lemma expand_Some {A} n (l l' : list A) :
  expand n l = Some l' →
  length l' = n ∧ (length l = n → l' = l).
Proof.
  unfold expand. case_decide.
  - intros; simplify_eq. done.
  - destruct l as [|x [|]]; intros; simplify_eq.
    rewrite length_replicate. split; [done|]. simpl in *. intros; lia.
Qed.


(** ** Sums *)

Lemma vsum_nil : vsum [] = 0.
Proof. reflexivity. Qed.

Lemma vsum_cons x l : vsum (x :: l) = x + vsum l.
Proof. reflexivity. Qed.

Lemma foldl_plus_acc {A} (g : A → Qc) (l : list A) a :
  foldl (λ acc f, acc + g f) a l = a + vsum (g <$> l).
Proof.
  revert a. induction l as [|x l IH]; intros a.
  - rewrite fmap_nil, vsum_nil. change (foldl _ a []) with a. ring.
  - rewrite fmap_cons, vsum_cons.
    change (foldl ?f a (x :: l)) with (foldl f (a + g x) l).
    rewrite IH. ring.
Qed.

Lemma foldl_plus_vsum {A} (g : A → Qc) (l : list A) :
  foldl (λ acc f, acc + g f) 0 l = vsum (g <$> l).
Proof. rewrite foldl_plus_acc. ring. Qed.

Lemma py_max_ge (a b : Qc) : b ≤ py_max a b.
Proof.
  unfold py_max. case_decide.
  - apply Qcle_refl.
  - by apply Qcnot_lt_le.
Qed.

Lemma expand_fmap {A B} (f : A → B) n (l : list A) :
  expand n (f <$> l) = (λ k : list A, f <$> k) <$> expand n l.
Proof.
  unfold expand. rewrite length_fmap. case_decide; [done|].
  destruct l as [|x [|]]; simpl; try done.
  by rewrite fmap_replicate.
Qed.

Lemma mod3_0 j : (0 ≤ j ∧ (j - 0) mod 3 = 0)%nat ↔ (j mod 3 = 0)%nat.
Proof. rewrite Nat.sub_0_r. split; [intros []; done|]. split; [lia|done]. Qed.

Lemma mod3_1 j : (1 ≤ j ∧ (j - 1) mod 3 = 0)%nat ↔ (j mod 3 = 1)%nat.
Proof.
  pose proof (Nat.div_mod_eq j 3). pose proof (Nat.div_mod_eq (j - 1) 3).
  pose proof (Nat.mod_upper_bound j 3). pose proof (Nat.mod_upper_bound (j - 1) 3).
  lia.
Qed.

Lemma mod3_2 j : (2 ≤ j ∧ (j - 2) mod 3 = 0)%nat ↔ (j mod 3 = 2)%nat.
Proof.
  pose proof (Nat.div_mod_eq j 3). pose proof (Nat.div_mod_eq (j - 2) 3).
  pose proof (Nat.mod_upper_bound j 3). pose proof (Nat.mod_upper_bound (j - 2) 3).
  lia.
Qed.

(** ** [kpts_decode] *)

(** The value to which [kpts_decode] takes the entry [v] of column [j] of a
    row whose anchor is [a]. *)
Definition decoded (a : Qc * Qc) (j : nat) (v : Qc) : Qc :=
  if decide (j mod 3 = 0)%nat then two * v + a.1 - half
  else if decide (j mod 3 = 1)%nat then two * v + a.2 - half
  else v.

Lemma decode_row_lookup (a : Qc * Qc) (row : vec) j v :
  row !! j = Some v →
  stride_upd (λ v, v + (a.2 - half)) 1 3
    (stride_upd (λ v, v + (a.1 - half)) 0 3
       (stride_upd (λ v, v * two) 1 3
          (stride_upd (λ v, v * two) 0 3 row))) !! j = Some (decoded a j v).
Proof.
  intros Hj. rewrite !lookup_stride_upd by lia. rewrite Hj. unfold decoded.
  repeat case_decide; rewrite ?mod3_0, ?mod3_1 in *; simpl;
    try (f_equal; ring); exfalso; lia.
Qed.

Definition decode_row (row : vec) (a : Qc * Qc) : vec :=
  stride_upd (λ v, v + (a.2 - half)) 1 3
    (stride_upd (λ v, v + (a.1 - half)) 0 3
       (stride_upd (λ v, v * two) 1 3
          (stride_upd (λ v, v * two) 0 3 row))).

Lemma zip_with_fuse {A B C D E} (h : A → A) (p : B → C) (q : B → D)
    (f : A → C → E) (g : E → D → E) (v : list A) (aps : list B) :
  zip_with g (zip_with f (h <$> v) (p <$> aps)) (q <$> aps) =
  zip_with (λ row a, g (f (h row) (p a)) (q a)) v aps.
Proof.
  revert aps. induction v as [|x v IH]; intros [|a aps]; simpl; try done.
  by rewrite IH.
Qed.

(** With anchors that broadcast to the rows, [kpts_decode] returns, and the
    result is the row-wise decoding. *)
Lemma kpts_decode_value ap (v : mat) bbox aps :
  expand (length v) ap = Some aps →
  kpts_decode ap v bbox = Some (zip_with decode_row v aps).
Proof.
  intros He. destruct (expand_Some _ _ _ He) as [Hlen _].
  unfold kpts_decode, shift_x, shift_y, rows_inplace, scale_xy.
  rewrite !length_fmap, !expand_fmap, He. simpl.
  rewrite length_zip_with, !length_fmap, Hlen, Nat.min_id.
  rewrite !expand_fmap, He. simpl. f_equal.
  rewrite <- !list_fmap_compose.
  rewrite (zip_with_fuse _ (λ a, a.1 - half) (λ a, a.2 - half)
             (λ row a, stride_upd (λ v, v + a) 0 3 row)
             (λ row a, stride_upd (λ v, v + a) 1 3 row)).
  done.
Qed.

Lemma kpts_decode_Some ap (v : mat) bbox out :
  kpts_decode ap v bbox = Some out →
  ∃ aps, expand (length v) ap = Some aps ∧ out = zip_with decode_row v aps.
Proof.
  intros Hd. destruct (expand (length v) ap) as [aps|] eqn:He.
  - exists aps. split; [done|]. rewrite (kpts_decode_value _ _ _ _ He) in Hd.
    by simplify_eq.
  - exfalso. revert Hd.
    unfold kpts_decode, shift_x, rows_inplace, scale_xy.
    by rewrite !length_fmap, !expand_fmap, He.
Qed.

Lemma decode_rows_lookup (v : mat) aps r row a :
  v !! r = Some row → aps !! r = Some a →
  ∃ orow, zip_with decode_row v aps !! r = Some orow ∧
          length orow = length row ∧
          ∀ j x, row !! j = Some x → orow !! j = Some (decoded a j x).
Proof.
  intros Hr Ha. exists (decode_row row a). split; [|split].
  - rewrite lookup_zip_with, Hr. simpl. by rewrite Ha.
  - unfold decode_row. by rewrite !length_stride_upd.
  - intros j x Hj. exact (decode_row_lookup a row j x Hj).
Qed.

Lemma inplace_insert (y : loc) (f : mat → option mat) (σ : store) v v' :
  f v = Some v' → inplace y f (<[y := v]> σ) = Some (<[y := v']> σ).
Proof.
  intros Hf. unfold inplace. rewrite lookup_insert_eq. simpl. rewrite Hf. simpl.
  by rewrite insert_insert_eq.
Qed.

(** On the store, [kpts_decode] allocates one tensor and writes only to it. *)
Lemma kpts_decode_st_value ap (pk : loc) bbox (σ : store) v out :
  σ !! pk = Some v → kpts_decode ap v bbox = Some out →
  kpts_decode_st ap pk bbox σ = Some (fresh_loc σ, <[fresh_loc σ := out]> σ).
Proof.
  intros Hpk Hd. unfold kpts_decode_st, clone. rewrite Hpk. simpl.
  revert Hd. unfold kpts_decode, scale_xy. intros Hd.
  destruct (shift_x _ _) as [y1|] eqn:H1; [|done]. simpl in Hd.
  destruct (shift_y _ _) as [y2|] eqn:H2; [|done]. simpl in Hd. simplify_eq.
  rewrite (inplace_insert _ (λ v, Some (stride_upd (λ v, v * two) 0 3 <$> v))
             _ v _ eq_refl). simpl.
  rewrite (inplace_insert _ (λ v, Some (stride_upd (λ v, v * two) 1 3 <$> v))
             _ _ _ eq_refl). simpl.
  rewrite (inplace_insert _ _ _ _ _ H1). simpl.
  by rewrite (inplace_insert _ _ _ _ _ H2).
Qed.

(** C7. [kpts_decode] works on a clone: whenever [pred_kpts] is a tensor of
    the store and the anchors broadcast to its rows, the call returns a
    tensor [y] that did not exist before, every tensor that existed
    (in particular [pred_kpts]) keeps its value, and the value of [y] has, in
    row [r] and column [j], [2 * v + ax - 0.5] where [j = 0 (mod 3)],
    [2 * v + ay - 0.5] where [j = 1 (mod 3)], and [v] itself where
    [j = 2 (mod 3)], for [v] the entry of [pred_kpts] there and [(ax, ay)]
    the anchor of the row.  The argument [bbox] does not matter. *)
Theorem kpts_decode_clone_frame ap (pk : loc) bbox (σ : store) (v : mat) aps :
  σ !! pk = Some v →
  expand (length v) ap = Some aps →
  ∃ y σ' out,
    kpts_decode_st ap pk bbox σ = Some (y, σ') ∧
    σ !! y = None ∧
    (∀ l, l ≠ y → σ' !! l = σ !! l) ∧
    σ' !! pk = Some v ∧
    σ' !! y = Some out ∧
    length out = length v ∧
    (∀ r row a, v !! r = Some row → aps !! r = Some a →
       ∃ orow, out !! r = Some orow ∧ length orow = length row ∧
         ∀ j x, row !! j = Some x →
           ((j mod 3 = 0)%nat → orow !! j = Some (two * x + a.1 - half)) ∧
           ((j mod 3 = 1)%nat → orow !! j = Some (two * x + a.2 - half)) ∧
           ((j mod 3 = 2)%nat → orow !! j = Some x)) ∧
    (∀ bbox', kpts_decode_st ap pk bbox' σ = kpts_decode_st ap pk bbox σ).
Proof.
  intros Hpk He.
  pose proof (kpts_decode_value ap v bbox aps He) as Hv.
  assert (Hfresh : σ !! fresh_loc σ = None).
  { apply not_elem_of_dom. unfold fresh_loc. apply is_fresh. }
  assert (Hne : pk ≠ fresh_loc σ) by (intros ->; congruence).
  exists (fresh_loc σ), (<[fresh_loc σ := zip_with decode_row v aps]> σ),
    (zip_with decode_row v aps).
  split_and!.
  - by apply kpts_decode_st_value with v.
  - done.
  - intros l Hl. by rewrite lookup_insert_ne.
  - by rewrite lookup_insert_ne.
  - by rewrite lookup_insert_eq.
  - destruct (expand_Some _ _ _ He) as [Hlen _].
    rewrite length_zip_with, Hlen. lia.
  - intros r row a Hr Ha.
    destruct (decode_rows_lookup v aps r row a Hr Ha) as (orow & ? & ? & Hj).
    exists orow. split_and!; [done..|].
    intros j x Hx. specialize (Hj j x Hx). unfold decoded in Hj.
    split_and!; intros Hm; rewrite Hj; repeat case_decide; done || lia.
  - intros bbox'.
    rewrite (kpts_decode_st_value ap pk bbox' σ v _ Hpk
               (kpts_decode_value ap v bbox' aps He)).
    by rewrite (kpts_decode_st_value ap pk bbox σ v _ Hpk Hv).
Qed.

Definition store0 : store := {[ 0%nat := [[1; two; 1; 0; half; 0]] ]}.

Lemma kpts_decode_clone_frame_witness :
  ∃ y σ', kpts_decode_st [(two, 1)] 0%nat [] store0 = Some (y, σ') ∧
          σ' !! 0%nat = Some [[1; two; 1; 0; half; 0]].
Proof.
  destruct (kpts_decode_clone_frame [(two, 1)] 0%nat [] store0
              [[1; two; 1; 0; half; 0]] [(two, 1)] eq_refl eq_refl)
    as (y & σ' & out & Hrun & _ & _ & Hpk & _).
  exists y, σ'. split; [exact Hrun | exact Hpk].
Defined.

(** ** [__call__] *)

(** Inversion of a chain of binds that returned. *)
Ltac inv_opt H :=
  cbv beta delta [mbind option_bind] in H;
  repeat match type of H with
  | match ?e with Some _ => _ | None => None end = Some _ =>
      let E := fresh "E" in destruct e eqn:E; [|discriminate H]
  | match ?p with (_, _) => _ end = Some _ => destruct p
  | (if ?d then _ else _) = Some _ => destruct d
  end.

Ltac run_inv H :=
  unfold run in H;
  match type of H with
  | context [unpack ?p] => destruct (unpack p) as [? ?] eqn:?
  end;
  inv_opt H;
  match goal with
  | E : (if _ then _ else _) = Some _ |- _ => inv_opt E
  end;
  simplify_eq;
  cbn [fr_pred_distri fr_pred_scores fr_pred_kpts fr_imgsz fr_anchor_points
       fr_stride_tensor fr_batch_size fr_gt_labels fr_gt_bboxes fr_mask_gt
       fr_pred_bboxes fr_assigned fr_target_bboxes fr_target_scores fr_fg_mask
       fr_target_gt_idx fr_target_scores_sum fr_kpt fr_terms fr_loss fr_result
       fst snd].

Ltac close := first [eassumption | reflexivity].

Section CallProps.
Context `{Framework} (self : Self).

Lemma length_reshape2 {A} rows k (l : list A) : length (reshape2 rows k l) = rows.
Proof. unfold reshape2. by rewrite length_fmap, length_seq. Qed.

Lemma view3_Some b c x t : view3 b c x = Some t → length t = b ∧ (0 < b)%nat.
Proof.
  unfold view3. repeat case_decide; intros; simplify_eq.
  rewrite length_fmap, length_reshape2. split; [done|]. lia.
Qed.

Lemma cat2_length b (ts : list ten3) t :
  Forall (λ v, length v = b) ts → cat2 ts = Some t → length t = b.
Proof.
  unfold cat2. destruct ts as [|t0 ts]; [done|].
  intros Hall ?; simplify_eq. inversion_clear Hall as [|?? H0 Hts].
  revert t0 H0. induction Hts as [|t1 ts H1 _ IH]; intros t0 H0; simpl; [done|].
  apply IH. rewrite length_zip_with. lia.
Qed.

Lemma length_permute021 (t : ten3) : length (permute021 t) = length t.
Proof. unfold permute021. by rewrite length_fmap. Qed.

(** The keypoints of the batch in pixels: [keypoints[:, 0::3] *= imgsz[1]],
    [keypoints[:, 1::3] *= imgsz[0]]. *)
Definition keypoints_px (imgsz : Qc * Qc) (kpts : mat) : mat :=
  stride_upd (λ v, v * imgsz.1) 1 3 <$> (stride_upd (λ v, v * imgsz.2) 0 3 <$> kpts).

(** What [run] computes before the assignment. *)
Lemma run_front preds batch fr :
  run self preds batch = Some fr →
  ∃ f0 views cat pd ps s0,
    head (unpack preds).1 = Some f0 ∧
    mapM (view3 (f_b f0) (no self)) (unpack preds).1 = Some views ∧
    cat2 views = Some cat ∧
    split1 (reg_max self * 4) (nc self) (no self) cat = Some (pd, ps) ∧
    fr_pred_distri fr = permute021 pd ∧
    fr_pred_scores fr = permute021 ps ∧
    fr_pred_kpts fr = permute021 (unpack preds).2 ∧
    stride self !! 0%nat = Some s0 ∧
    fr_imgsz fr = (Qc_of_nat (f_h f0) * s0, Qc_of_nat (f_w f0) * s0) ∧
    make_anchors (unpack preds).1 (stride self) half
      = Some (fr_anchor_points fr, fr_stride_tensor fr) ∧
    fr_batch_size fr = length (fr_pred_scores fr).
Proof.
  intros Hrun. run_inv Hrun; eexists _, _, _, _, _, _; split_and!; close.
Qed.

Lemma run_targets preds batch fr :
  run self preds batch = Some fr →
  ∃ t0 t,
    cat_targets (batch_idx batch) (cls batch) (bboxes batch) = Some t0 ∧
    preprocess self t0 (fr_batch_size fr)
      (mkBox (fr_imgsz fr).2 (fr_imgsz fr).1 (fr_imgsz fr).2 (fr_imgsz fr).1)
      = Some t ∧
    fr_gt_labels fr = (λ row : list (Qc * Box), fst <$> row) <$> t ∧
    fr_gt_bboxes fr = (λ row : list (Qc * Box), snd <$> row) <$> t ∧
    fr_mask_gt fr
      = (λ row : list Box, (λ b, bool_decide (0 < box_sum b)) <$> row) <$> fr_gt_bboxes fr ∧
    bbox_decode self (fr_anchor_points fr) (fr_pred_distri fr)
      = Some (fr_pred_bboxes fr).
Proof.
  intros Hrun. run_inv Hrun; eexists _, _; split_and!; close.
Qed.

Lemma run_assign preds batch fr :
  run self preds batch = Some fr →
  ∃ sb sa,
    mapM (λ row : list Box, bzip box_scale row (fr_stride_tensor fr))
      (fr_pred_bboxes fr) = Some sb ∧
    bzip anchor_scale (fr_anchor_points fr) (fr_stride_tensor fr) = Some sa ∧
    assigner self
      ((λ m : mat, (λ row : vec, sigmoid <$> row) <$> m) <$> fr_pred_scores fr)
      sb sa (fr_gt_labels fr) (fr_gt_bboxes fr) (fr_mask_gt fr)
      = Some (fr_assigned fr) ∧
    fr_target_scores fr = a_scores (fr_assigned fr) ∧
    fr_fg_mask fr = a_fg_mask (fr_assigned fr) ∧
    fr_target_gt_idx fr = a_gt_idx (fr_assigned fr) ∧
    fr_target_scores_sum fr = py_max (sum3 (fr_target_scores fr)) 1.
Proof.
  intros Hrun. run_inv Hrun; eexists _, _; split_and!; close.
Qed.

(** The two branches of [if fg_mask.sum():]. *)
Definition no_foreground (fr : Frame) (box dfl : Qc) : Prop :=
  mask_count2 (fr_fg_mask fr) = 0%nat ∧
  fr_target_bboxes fr = a_bboxes (fr_assigned fr) ∧
  fr_kpt fr = [] ∧ box = 0 ∧ dfl = 0.

Definition foreground (batch : Batch) (fr : Frame) (box dfl : Qc) : Prop :=
  mask_count2 (fr_fg_mask fr) ≠ 0%nat ∧
  mapM (λ row : list Box, rows_inplace box_div row (fr_stride_tensor fr))
    (a_bboxes (fr_assigned fr)) = Some (fr_target_bboxes fr) ∧
  bbox_loss self (fr_pred_distri fr) (fr_pred_bboxes fr) (fr_anchor_points fr)
    (fr_target_bboxes fr) (fr_target_scores fr) (fr_target_scores_sum fr)
    (fr_fg_mask fr) = Some (box, dfl) ∧
  ∃ steps,
    mapM (kpt_step self (batch_idx batch)
            (keypoints_px (fr_imgsz fr) (keypoints batch))
            (fr_anchor_points fr) (fr_stride_tensor fr) (fr_pred_kpts fr)
            (fr_target_bboxes fr) (fr_fg_mask fr) (fr_target_gt_idx fr))
      (seq 0 (fr_batch_size fr)) = Some steps ∧
    fr_kpt fr = omap id steps.

Lemma run_terms preds batch fr :
  run self preds batch = Some fr →
  ∃ box dfl e,
    bce self (fr_pred_scores fr) (fr_target_scores fr) = Some e ∧
    fr_terms fr = [box; vsum (k_loc <$> fr_kpt fr); vsum (k_vis <$> fr_kpt fr);
                   sum3 e / fr_target_scores_sum fr; dfl] ∧
    (no_foreground fr box dfl ∨ foreground batch fr box dfl).
Proof.
  intros Hrun. run_inv Hrun.
  - eexists _, _, _. split_and!; [close|close|].
    left. unfold no_foreground. cbn [fr_fg_mask fr_target_bboxes fr_assigned fr_kpt].
    split_and!; close.
  - eexists _, _, _. split_and!; [close| |].
    + by rewrite !foldl_plus_vsum.
    + right. unfold foreground, keypoints_px.
      cbn [fr_pred_distri fr_pred_scores fr_pred_kpts fr_imgsz fr_anchor_points
           fr_stride_tensor fr_batch_size fr_pred_bboxes fr_assigned
           fr_target_bboxes fr_target_scores fr_fg_mask fr_target_gt_idx
           fr_target_scores_sum fr_kpt].
      split_and!; [close..|]. eexists. split; close.
Qed.

Lemma run_result preds batch fr :
  run self preds batch = Some fr →
  ∃ l0 l1 l2 l3 l4,
    fr_terms fr = [l0; l1; l2; l3; l4] ∧
    fr_loss fr = [l0 * hyp_box self;
                  l1 * (hyp_box self / Qc_of_nat (fr_batch_size fr));
                  l2 * (hyp_box self / Qc_of_nat (fr_batch_size fr));
                  l3 * hyp_cls self;
                  l4 * hyp_dfl self] ∧
    fr_result fr = (vsum (fr_loss fr) * Qc_of_nat (fr_batch_size fr), fr_loss fr).
Proof.
  intros Hrun. run_inv Hrun; eexists _, _, _, _, _; split_and!; close.
Qed.

(** One iteration of the keypoint loop, for an image with foreground
    anchors: what each local variable holds. *)
Record kpt_step_spec (bi : vec) (kp : mat) (ap : list (Qc * Qc)) (st : vec)
    (pk : ten3) (tb : list (list Box)) (fg : list (list bool))
    (gidx : list (list Z)) (i : nat) (f : KptFrame) : Prop := {
  ks_i : k_i f = i;
  ks_fg : ∃ fgi, fg !! i = Some fgi ∧ mask_count fgi ≠ 0%nat ∧
    (∃ gi, gidx !! i = Some gi ∧ mask_select fgi gi = Some (k_idx f)) ∧
    (∃ rows g0 sti g1,
       mask_select ((λ v, bool_decide (v = Qc_of_nat i)) <$> bi) kp = Some rows ∧
       index_rows rows (k_idx f) = Some g0 ∧
       mask_select fgi st = Some sti ∧
       rows_inplace (λ row s, stride_upd (λ v, v / s) 0 3 row) g0 sti = Some g1 ∧
       rows_inplace (λ row s, stride_upd (λ v, v / s) 1 3 row) g1 sti
         = Some (k_gt_kpt f)) ∧
    (∃ tbi tbs, tb !! i = Some tbi ∧ mask_select fgi tbi = Some tbs ∧
       xyxy2xywh tbs = Some (k_xywh f)) ∧
    (∃ api pki pks, mask_select fgi ap = Some api ∧ pk !! i = Some pki ∧
       mask_select fgi pki = Some pks ∧
       kpts_decode api pks (k_xywh f) = Some (k_pred_kpt f));
  ks_area : k_area f = (λ b, c2 b * c3 b) <$> k_xywh f;
  ks_mask : k_kpt_mask f
    = (λ row : vec, (λ v, bool_decide (v ≠ 0)) <$> stride_get 2 3 row) <$> k_gt_kpt f;
  ks_loc : keypoint_loss self (k_pred_kpt f) (k_gt_kpt f) (k_kpt_mask f) (k_area f)
    = Some (k_loc f);
  ks_vis : bce_pose self (stride_get 2 3 <$> k_pred_kpt f)
             ((λ row : list bool, b2q <$> row) <$> k_kpt_mask f)
    = Some (k_vis f)
}.

Lemma kpt_step_Some bi kp ap st pk tb fg gidx i f :
  kpt_step self bi kp ap st pk tb fg gidx i = Some (Some f) →
  kpt_step_spec bi kp ap st pk tb fg gidx i f.
Proof.
  intros Hs. unfold kpt_step in Hs. inv_opt Hs; simplify_eq.
  split; cbn [k_i k_idx k_gt_kpt k_xywh k_area k_pred_kpt k_kpt_mask k_loc k_vis];
    try close.
  eexists. split_and!; [close|done| | | |].
  - eexists. split; close.
  - eexists _, _, _, _. split_and!; close.
  - eexists _, _. split_and!; close.
  - eexists _, _, _. split_and!; close.
Qed.

Lemma kpt_step_None bi kp ap st pk tb fg gidx i :
  kpt_step self bi kp ap st pk tb fg gidx i = Some None →
  ∃ fgi, fg !! i = Some fgi ∧ mask_count fgi = 0%nat.
Proof.
  intros Hs. unfold kpt_step in Hs. inv_opt Hs; simplify_eq. eauto.
Qed.

(** [fg_mask[i].sum()] as a truth value. *)
Definition has_fg (fg : list (list bool)) (i : nat) : bool :=
  from_option (λ m, bool_decide (mask_count m ≠ 0%nat)) false (fg !! i).

(** The frames of the loop are those of the images with foreground anchors,
    in the order of the images. *)
Lemma kpt_loop_frames bi kp ap st pk tb fg gidx (imgs : list nat) steps :
  mapM (kpt_step self bi kp ap st pk tb fg gidx) imgs = Some steps →
  Forall (λ f, kpt_step_spec bi kp ap st pk tb fg gidx (k_i f) f) (omap id steps) ∧
  k_i <$> omap id steps
    = filter (λ i, has_fg fg i) imgs.
Proof.
  intros Hm%mapM_Some_1. induction Hm as [|i o imgs steps Hi _ [IH1 IH2]].
  - split; [constructor|done].
  - destruct o as [f|].
    + change (omap id (Some f :: steps)) with (f :: omap id steps).
      pose proof (kpt_step_Some _ _ _ _ _ _ _ _ _ _ Hi) as Hf.
      pose proof (ks_i _ _ _ _ _ _ _ _ _ _ Hf) as Hki.
      destruct (ks_fg _ _ _ _ _ _ _ _ _ _ Hf) as (fgi & Hfg & Hc & _).
      split.
      * constructor; [by rewrite Hki|done].
      * rewrite fmap_cons, filter_cons_True, IH2, Hki; [done|].
        unfold has_fg. rewrite Hfg. by apply bool_decide_pack.
    + change (omap id (None :: steps)) with (omap id steps).
      destruct (kpt_step_None _ _ _ _ _ _ _ _ _ Hi) as (fgi & Hfg & Hc).
      split; [done|].
      rewrite filter_cons_False; [done|].
      unfold has_fg. rewrite Hfg. intros Hb%bool_decide_unpack. done.
Qed.

(** The batch size is the first dimension of the first feature map, and it
    is positive: the view of an empty batch raises. *)
Lemma run_batch_size preds batch fr :
  run self preds batch = Some fr →
  ∃ f0, head (unpack preds).1 = Some f0 ∧
        fr_batch_size fr = f_b f0 ∧ (0 < fr_batch_size fr)%nat.
Proof.
  intros Hrun.
  destruct (run_front _ _ _ Hrun)
    as (f0 & views & cat & pd & ps & s0 & Hh & Hv & Hc & Hs & _ & Hps & _ & _ & _ & _ & Hb).
  exists f0. split; [done|].
  apply mapM_Some_1 in Hv.
  assert (Hall : Forall (λ v : ten3, length v = f_b f0) views).
  { clear -Hv. induction Hv as [|x v ?? Hx _ IH]; constructor; [|done].
    by destruct (view3_Some _ _ _ _ Hx). }
  assert (Hpos : (0 < f_b f0)%nat).
  { destruct (unpack preds).1 as [|x feats]; [done|]. simpl in Hh. simplify_eq.
    inversion Hv as [|???? Hx _]; subst. by destruct (view3_Some _ _ _ _ Hx). }
  assert (Hlen : fr_batch_size fr = f_b f0).
  { rewrite Hb, Hps, length_permute021.
    unfold split1 in Hs. case_decide; [|done]. simplify_eq.
    rewrite length_fmap. by apply (cat2_length _ views). }
  split; [done|]. by rewrite Hlen.
Qed.

Lemma Qc_of_nat_pos n : (0 < n)%nat → Qc_of_nat n ≠ 0.
Proof.
  intros Hn Hz. unfold Qc_of_nat in Hz.
  apply (f_equal this) in Hz. simpl in Hz.
  assert (Hq : (inject_Z (Z.of_nat n) == 0)%Q).
  { rewrite <- (Qred_correct (inject_Z (Z.of_nat n))). by rewrite Hz. }
  unfold Qeq in Hq. simpl in Hq. lia.
Qed.

Lemma sum3_zero (t : ten3) :
  Forall (Forall (Forall (λ v, v = 0))) t → sum3 t = 0.
Proof.
  intros Ht. unfold sum3.
  assert (Hall : Forall (λ v, v = 0) (concat (concat t))).
  { apply Forall_concat. apply Forall_concat. done. }
  induction Hall as [|x l -> _ IH]; [done|].
  rewrite vsum_cons, IH. ring.
Qed.

(** C5. The classification term is divided by [max(target_scores.sum(), 1)],
    which is at least 1 and so not zero; it is 1 when every target score is
    zero. *)
Theorem cls_denominator_at_least_one preds batch fr :
  run self preds batch = Some fr →
  fr_target_scores_sum fr = py_max (sum3 (fr_target_scores fr)) 1 ∧
  1 ≤ fr_target_scores_sum fr ∧
  fr_target_scores_sum fr ≠ 0 ∧
  (∃ e, bce self (fr_pred_scores fr) (fr_target_scores fr) = Some e ∧
        fr_terms fr !! 3%nat = Some (sum3 e / fr_target_scores_sum fr)) ∧
  (Forall (Forall (Forall (λ v, v = 0))) (fr_target_scores fr) →
   fr_target_scores_sum fr = 1).
Proof.
  intros Hrun.
  destruct (run_assign _ _ _ Hrun) as (sb & sa & _ & _ & _ & _ & _ & _ & Hs).
  destruct (run_terms _ _ _ Hrun) as (box & dfl & e & He & Ht & _).
  assert (Hge : 1 ≤ fr_target_scores_sum fr) by (rewrite Hs; apply py_max_ge).
  split_and!; [done|done| | |].
  - intros Hz. rewrite Hz in Hge. by apply Qcle_not_lt in Hge.
  - exists e. split; [done|]. by rewrite Ht.
  - intros Hall. rewrite Hs, (sum3_zero _ Hall). unfold py_max.
    by rewrite decide_True.
Qed.

(** C6. When the foreground mask selects no anchor, the returned vector is
    zero in its box, keypoint-location, keypoint-visibility and dfl
    components, the loop over the images is not entered, and the target
    boxes are those the assigner returned, not divided by the stride. *)
Theorem no_foreground_zero_terms preds batch fr :
  run self preds batch = Some fr →
  mask_count2 (fr_fg_mask fr) = 0%nat →
  (∃ c, (fr_result fr).2 = [0; 0; 0; c; 0]) ∧
  fr_kpt fr = [] ∧
  fr_target_bboxes fr = a_bboxes (fr_assigned fr).
Proof.
  intros Hrun Hfg.
  destruct (run_terms _ _ _ Hrun) as (box & dfl & e & He & Ht & [Hno|Hyes]).
  - destruct Hno as (_ & Htb & Hk & -> & ->).
    destruct (run_result _ _ _ Hrun) as (l0 & l1 & l2 & l3 & l4 & Ht' & Hl & Hr).
    rewrite Ht in Ht'. rewrite Hk in Ht'. simplify_eq.
    split_and!; [|done..].
    exists (sum3 e / fr_target_scores_sum fr * hyp_cls self).
    rewrite Hr, Hl. cbn [snd]. rewrite ?fmap_nil, ?vsum_nil.
    by rewrite !Qcmult_0_l.
  - by destruct Hyes as (Hne & _).
Qed.

(** *** The ground-truth keypoints of an image *)






Lemma keypoints_px_rows (imgsz : Qc * Qc) (kpts : mat) :
  keypoints_px imgsz kpts
  = (λ raw, stride_upd (λ v, v * imgsz.1) 1 3 (stride_upd (λ v, v * imgsz.2) 0 3 raw))
      <$> kpts.
Proof. unfold keypoints_px. by rewrite <- list_fmap_compose. Qed.


Lemma mask_count_app (m1 m2 : list bool) :
  mask_count (m1 ++ m2) = (mask_count m1 + mask_count m2)%nat.
Proof. unfold mask_count. by rewrite list.filter_app, length_app. Qed.

Lemma filter_none {A} (P : A → Prop) `{∀ x, Decision (P x)} (l : list A) :
  Forall (λ x, ¬ P x) l → filter P l = [].
Proof.
  induction 1 as [|x l Hx _ IH]; [done|].
  by rewrite filter_cons_False.
Qed.

Lemma has_fg_mask_count2 (fg : list (list bool)) i :
  has_fg fg i = true → mask_count2 fg ≠ 0%nat.
Proof.
  unfold has_fg, mask_count2. revert i.
  induction fg as [|m fg IH]; intros i.
  - by rewrite lookup_nil.
  - rewrite concat_cons, mask_count_app. destruct i as [|i].
    + cbn [lookup list_lookup from_option]. intros Hb%bool_decide_eq_true. lia.
    + intros Hi. specialize (IH i Hi). lia.
Qed.

(** The frames of [run]: one for every image with foreground anchors. *)
Lemma run_frames preds batch fr :
  run self preds batch = Some fr →
  Forall (λ f, kpt_step_spec (batch_idx batch)
                 (keypoints_px (fr_imgsz fr) (keypoints batch))
                 (fr_anchor_points fr) (fr_stride_tensor fr) (fr_pred_kpts fr)
                 (fr_target_bboxes fr) (fr_fg_mask fr) (fr_target_gt_idx fr)
                 (k_i f) f) (fr_kpt fr) ∧
  k_i <$> fr_kpt fr = filter (λ i, has_fg (fr_fg_mask fr) i) (seq 0 (fr_batch_size fr)).
Proof.
  intros Hrun.
  destruct (run_terms _ _ _ Hrun) as (box & dfl & e & _ & _ & [Hno|Hyes]).
  - destruct Hno as (Hz & _ & -> & _). split; [constructor|].
    rewrite fmap_nil. symmetry. apply filter_none.
    apply Forall_forall. intros i _ Hi. apply Is_true_true in Hi.
    by apply has_fg_mask_count2 in Hi.
  - destruct Hyes as (_ & _ & _ & steps & Hm & ->).
    by apply kpt_loop_frames.
Qed.

(** C1. [__call__] returns the pair of [batch_size] times the sum of the
    five-component vector and that vector.  The components are, in this
    order: the box loss and, last, the distribution focal loss, both
    returned by [self.bbox_loss] on the predicted distributions and boxes
    and the assigned targets (both 0 when no anchor is foreground); the
    keypoint-location loss, the sum of [self.keypoint_loss] over the images
    with foreground anchors; the keypoint-visibility loss, the sum of
    [self.bce_pose] over those images; and the classification loss, the sum
    of [self.bce] of the predicted scores and the assigned target scores
    divided by [max(target_scores.sum(), 1)].  The predictions are the
    views of the feature maps of [preds], the targets what [self.assigner]
    returns on them and on the ground truth of [batch].  The box term
    carries the box gain, each keypoint term the box gain divided by the
    batch size, the classification term the cls gain and the dfl term the
    dfl gain.  The batch size is that of the first feature map and is
    positive, so the division is one. *)
Theorem call_returns_gained_sum preds batch r :
  __call__ self preds batch = Some r →
  ∃ fr box kloc kvis cl dfl,
    run self preds batch = Some fr ∧
    fr_terms fr = [box; kloc; kvis; cl; dfl] ∧
    (∃ f0 views cat pd ps,
       head (unpack preds).1 = Some f0 ∧
       mapM (view3 (f_b f0) (no self)) (unpack preds).1 = Some views ∧
       cat2 views = Some cat ∧
       split1 (reg_max self * 4) (nc self) (no self) cat = Some (pd, ps) ∧
       fr_pred_distri fr = permute021 pd ∧
       fr_pred_scores fr = permute021 ps ∧
       fr_pred_kpts fr = permute021 (unpack preds).2 ∧
       fr_batch_size fr = f_b f0) ∧
    (∃ t0 t sb sa,
       cat_targets (batch_idx batch) (cls batch) (bboxes batch) = Some t0 ∧
       preprocess self t0 (fr_batch_size fr)
         (mkBox (fr_imgsz fr).2 (fr_imgsz fr).1 (fr_imgsz fr).2 (fr_imgsz fr).1)
         = Some t ∧
       fr_gt_labels fr = (λ row : list (Qc * Box), fst <$> row) <$> t ∧
       fr_gt_bboxes fr = (λ row : list (Qc * Box), snd <$> row) <$> t ∧
       fr_mask_gt fr
         = (λ row : list Box, (λ b, bool_decide (0 < box_sum b)) <$> row)
             <$> fr_gt_bboxes fr ∧
       bbox_decode self (fr_anchor_points fr) (fr_pred_distri fr)
         = Some (fr_pred_bboxes fr) ∧
       mapM (λ row : list Box, bzip box_scale row (fr_stride_tensor fr))
         (fr_pred_bboxes fr) = Some sb ∧
       bzip anchor_scale (fr_anchor_points fr) (fr_stride_tensor fr) = Some sa ∧
       assigner self
         ((λ m : mat, (λ row : vec, sigmoid <$> row) <$> m) <$> fr_pred_scores fr)
         sb sa (fr_gt_labels fr) (fr_gt_bboxes fr) (fr_mask_gt fr)
         = Some (fr_assigned fr)) ∧
    fr_target_scores fr = a_scores (fr_assigned fr) ∧
    fr_fg_mask fr = a_fg_mask (fr_assigned fr) ∧
    fr_target_gt_idx fr = a_gt_idx (fr_assigned fr) ∧
    fr_target_scores_sum fr = py_max (sum3 (fr_target_scores fr)) 1 ∧
    (no_foreground fr box dfl ∨ foreground batch fr box dfl) ∧
    kloc = vsum (k_loc <$> fr_kpt fr) ∧
    kvis = vsum (k_vis <$> fr_kpt fr) ∧
    k_i <$> fr_kpt fr
      = filter (λ i, has_fg (fr_fg_mask fr) i) (seq 0 (fr_batch_size fr)) ∧
    Forall (λ f, kpt_step_spec (batch_idx batch)
                   (keypoints_px (fr_imgsz fr) (keypoints batch))
                   (fr_anchor_points fr) (fr_stride_tensor fr) (fr_pred_kpts fr)
                   (fr_target_bboxes fr) (fr_fg_mask fr) (fr_target_gt_idx fr)
                   (k_i f) f) (fr_kpt fr) ∧
    (∃ e, bce self (fr_pred_scores fr) (fr_target_scores fr) = Some e ∧
          cl = sum3 e / fr_target_scores_sum fr) ∧
    (0 < fr_batch_size fr)%nat ∧
    Qc_of_nat (fr_batch_size fr) ≠ 0 ∧
    let n := Qc_of_nat (fr_batch_size fr) in
    let loss := [box * hyp_box self;
                 kloc * (hyp_box self / n);
                 kvis * (hyp_box self / n);
                 cl * hyp_cls self;
                 dfl * hyp_dfl self] in
    r = (vsum loss * n, loss) ∧
    r.1 = n * (box * hyp_box self + kloc * (hyp_box self / n)
               + kvis * (hyp_box self / n) + cl * hyp_cls self
               + dfl * hyp_dfl self).
Proof.
  unfold __call__. intros Hc.
  destruct (run self preds batch) as [fr|] eqn:Hrun; [|done].
  simpl in Hc. simplify_eq.
  destruct (run_result _ _ _ Hrun) as (l0 & l1 & l2 & l3 & l4 & Ht & Hl & Hr).
  destruct (run_batch_size _ _ _ Hrun) as (f0' & Hh' & Hb & Hpos).
  destruct (run_front _ _ _ Hrun)
    as (f0 & views & cat & pd & ps & s0 & Hh & Hv & Hc & Hs & Hpd & Hps & Hpk & _).
  destruct (run_targets _ _ _ Hrun) as (t0 & t & G1 & G2 & G3 & G4 & G5 & G6).
  destruct (run_assign _ _ _ Hrun) as (sb & sa & A1 & A2 & A3 & A4 & A5 & A6 & A7).
  destruct (run_terms _ _ _ Hrun) as (box & dfl & e & He & Ht' & Hbr).
  destruct (run_frames _ _ _ Hrun) as [Hfr Hidx].
  rewrite Ht in Ht'. injection Ht' as -> -> -> -> ->.
  rewrite Hh in Hh'. injection Hh' as <-.
  exists fr, box, (vsum (k_loc <$> fr_kpt fr)), (vsum (k_vis <$> fr_kpt fr)),
    (sum3 e / fr_target_scores_sum fr), dfl.
  split; [done|]. split; [done|].
  split; [by exists f0, views, cat, pd, ps|].
  split; [by exists t0, t, sb, sa|].
  do 4 (split; [done|]).
  split; [done|]. split; [done|]. split; [done|]. split; [done|].
  split; [done|]. split; [by exists e|]. split; [done|].
  split; [by apply Qc_of_nat_pos|].
  cbv zeta. rewrite Hr, Hl. split; [done|].
  cbn [fst]. rewrite !vsum_cons, vsum_nil. ring.
Qed.

(** *** Where the targets come from *)


(** *** The keypoint terms *)
























End CallProps.

(** ** A concrete run

    One image, one anchor, one class, one keypoint; the kernels of the
    framework are replaced by simple functions.  [demo_self fg score] is a
    loss whose assigner marks the anchor as foreground when [fg] is set and
    gives it the target score [score]. *)

Module Demo.

Definition eight : Qc := Qc_of_nat 8.

#[local] Instance fw : Framework := {|
  Model := nat;
  sigmoid := λ v, v;
  make_anchors := λ _ _ off, Some ([(off, off)], [eight]);
  xyxy2xywh := λ l,
    Some ((λ b, mkBox ((c0 b + c2 b) / two) ((c1 b + c3 b) / two)
                      (c2 b - c0 b) (c3 b - c1 b)) <$> l);
  Loss_init := λ _, None;
  head_nkpt := λ _, Some 1%nat;
  BCEWithLogitsLoss := λ x y, Some (vsum (concat x) + vsum (concat y));
  KeypointLoss := λ _ _ p g m a, Some (vsum (concat p) + vsum a)
|}.

Definition demo_loss (fg : bool) (score : Qc) : Loss := {|
  device := "cpu";
  no := 5; reg_max := 1; nc := 1;
  stride := [eight];
  hyp_box := Qc_of_nat 7 + half; hyp_cls := half; hyp_dfl := 1 + half;
  preprocess := λ t n scale,
    Some (replicate n ((λ x, (x.1.2, mkBox (c0 x.2 * c0 scale) (c1 x.2 * c1 scale)
                                           (c2 x.2 * c2 scale) (c3 x.2 * c3 scale))) <$> t));
  bbox_decode := λ _ pd,
    Some ((λ m : mat, (λ _ : vec, mkBox 0 0 1 1) <$> m) <$> pd);
  assigner := λ _ pb _ _ _ _,
    Some (mkAssigned [[0%Z]] pb [[[score]]] [[fg]] [[0%Z]]);
  bce := λ p _, Some p;
  bbox_loss := λ _ _ _ _ _ _ _, Some (1, two)
|}.

Definition demo_self (fg : bool) (score : Qc) : Self :=
  mkSelf (demo_loss fg score) 1
    BCEWithLogitsLoss (KeypointLoss "cpu" 1).

Definition demo_preds : Preds :=
  PredsTrain [mkFeat 1 5 1 1 [1; two; 1; two; two + 1]] [[[1]; [two]; [1]]].

Definition demo_batch : Batch :=
  mkBatch [0] [0] [mkBox 0 0 half half] [[half; half; 1]].

End Demo.

Import Demo.

(** The run with a foreground anchor returns; so does the one without. *)
Lemma demo_run_fg :
  ∃ fr, run (H:=fw) (demo_self true half) demo_preds demo_batch = Some fr ∧
        mask_count2 (fr_fg_mask fr) = 1%nat.
Proof. vm_compute. eexists. split; reflexivity. Defined.

Lemma demo_run_no_fg :
  ∃ fr, run (H:=fw) (demo_self false 0) demo_preds demo_batch = Some fr ∧
        mask_count2 (fr_fg_mask fr) = 0%nat.
Proof. vm_compute. eexists. split; reflexivity. Defined.

Lemma call_returns_gained_sum_witness :
  ∃ fr, run (H:=fw) (demo_self true half) demo_preds demo_batch = Some fr ∧
        (0 < fr_batch_size fr)%nat.
Proof.
  destruct demo_run_fg as (fr & Hrun & _).
  destruct (call_returns_gained_sum (H:=fw) (demo_self true half) demo_preds
              demo_batch (fr_result fr))
    as (fr' & box & kloc & kvis & cl & dfl & Hrun' & _ & _ & _ & _ & _ & _ & _
        & _ & _ & _ & _ & _ & _ & Hpos & _).
  - unfold __call__. rewrite Hrun. reflexivity.
  - exists fr'. split; assumption.
Defined.












Lemma cls_denominator_at_least_one_witness :
  ∃ fr, run (H:=fw) (demo_self false 0) demo_preds demo_batch = Some fr ∧
        1 ≤ fr_target_scores_sum fr.
Proof.
  destruct demo_run_no_fg as (fr & Hrun & _). exists fr. split; [exact Hrun|].
  destruct (cls_denominator_at_least_one (H:=fw) _ _ _ _ Hrun) as (_ & Hge & _).
  exact Hge.
Defined.

Lemma no_foreground_zero_terms_witness :
  ∃ fr, run (H:=fw) (demo_self false 0) demo_preds demo_batch = Some fr ∧
        fr_target_bboxes fr = a_bboxes (fr_assigned fr).
Proof.
  destruct demo_run_no_fg as (fr & Hrun & Hfg). exists fr. split; [exact Hrun|].
  destruct (no_foreground_zero_terms (H:=fw) _ _ _ _ Hrun Hfg) as (_ & _ & Htb).
  exact Htb.
Defined.


(** ** [PoseTrainer] *)

Import PoseTrainer.

Section TrainerProps.
Context `{Framework} (imp : Imports).

Ltac unfold_M :=
  unfold get_model, PoseTrainer.__init__, criterion, mbind, M_bind, mret, M_ret,
    call, lift, option_bind in *;
  cbv zeta in *.


(** C9. A call of [get_model] that returns has loaded weights exactly
    when the [weights] argument is truthy, and then it loaded that argument
    into the model it constructed and returns the loaded model; when
    [weights] is absent or falsy its only call is the construction and it
    returns the constructed model. *)
Theorem load_iff_weights_truthy (self : Trainer)
    (cfgm weights verbose : option pyval) (log log' : list Call) (m : Model) :
  get_model imp self cfgm weights verbose log = Some (m, log') →
  ∃ calls c nc nkpt v m0,
    log' = log ++ calls ∧
    PoseModel imp c 3 nc nkpt v = Some m0 ∧
    ((∃ m1 w, CallLoad m1 w ∈ calls) ↔ truthy (default PNone weights) = true) ∧
    (truthy (default PNone weights) = true →
     calls = [CallPoseModel c 3 nc nkpt v; CallLoad m0 (default PNone weights)] ∧
     load imp m0 (default PNone weights) = Some m) ∧
    (truthy (default PNone weights) = false →
     calls = [CallPoseModel c 3 nc nkpt v] ∧ m = m0).
Proof.
  unfold_M.
  destruct (data self !! "nc") as [nc|]; [|done]. simpl.
  destruct (data self !! "nkpt") as [nkpt|]; [|done]. simpl.
  destruct (PoseModel imp _ _ _ _ _) as [m0|] eqn:Hm; [|done]. simpl.
  destruct (truthy (default PNone weights)) eqn:Ht; simpl.
  - destruct (load imp m0 _) as [m1|] eqn:Hl; [|done]. simpl.
    intros ?; simplify_eq.
    eexists [_; _], _, _, _, _, m0. split_and!.
    + by rewrite <- app_assoc.
    + exact Hm.
    + split; [done|]. intros _. eexists _, _. apply list_elem_of_In. right. by left.
    + done.
    + done.
  - intros ?; simplify_eq.
    eexists [_], _, _, _, _, m. split_and!.
    + done.
    + exact Hm.
    + split; [|done]. intros (m1 & w & Hin).
      apply list_elem_of_In in Hin. destruct Hin as [Hin|[]]. discriminate Hin.
    + done.
    + done.
Qed.

(** [criterion] builds the loss once, from the model without its
    data-parallel wrapper, and keeps it. *)
Lemma criterion_calls (self : Trainer) preds batch log r self' log' :
  criterion imp self preds batch log = Some (r, self', log') →
  match compute_loss self with
  | Some l =>
      self' = self ∧ log' = log ++ [CallComputeLoss preds batch] ∧
      PoseLoss.__call__ l preds batch = Some r
  | None =>
      ∃ m l, de_parallel imp (model self) = Some m ∧
             PoseLoss.__init__ m = Some l ∧
             compute_loss self' = Some l ∧
             PoseLoss.__call__ l preds batch = Some r ∧
             log' = log ++ [CallDeParallel (model self); CallLossInit m;
                            CallComputeLoss preds batch]
  end.
Proof.
  unfold_M. destruct (compute_loss self) as [l|] eqn:Hl; simpl.
  - rewrite Hl. simpl.
    destruct (PoseLoss.__call__ l preds batch) as [r'|]; [|done]. simpl.
    intros ?; simplify_eq. done.
  - destruct (de_parallel imp (model self)) as [m|]; [|done]. simpl.
    destruct (PoseLoss.__init__ m) as [l|] eqn:Hi; [|done]. simpl.
    destruct (PoseLoss.__call__ l preds batch) as [r'|] eqn:Hc; [|done]. simpl.
    intros ?; simplify_eq. exists m, l. split_and!; try done.
    by rewrite <- !app_assoc.
Qed.

End TrainerProps.

(** A trainer whose framework constructs model 1 and whose load gives the
    next model. *)
Definition demo_imports : Imports (H:=fw) := {|
  DEFAULT_CFG := PStr "default.yaml";
  DetectionTrainer_init := λ _ d, Some (mkTrainer (H:=fw) d 0%nat None);
  PoseModel := λ _ _ _ _ _, Some 1%nat;
  load := λ m _, Some (S m);
  de_parallel := λ m, Some m
|}.

Definition demo_trainer : Trainer (H:=fw) :=
  mkTrainer (H:=fw) (<["nc" := PInt 1]> (<["nkpt" := PInt 17]> ∅)) 0%nat None.

Lemma load_iff_weights_truthy_witness :
  ∃ calls,
    get_model demo_imports demo_trainer None (Some (PStr "yolov8n-pose.pt")) None []
      = Some (2%nat, calls) ∧
    ∃ m1 w, CallLoad (H:=fw) m1 w ∈ calls.
Proof.
  assert (Hrun : get_model demo_imports demo_trainer None
                   (Some (PStr "yolov8n-pose.pt")) None []
                 = Some (2%nat, [CallPoseModel (H:=fw) PNone 3 (PInt 1) (PInt 17) (PBool true);
                                 CallLoad (H:=fw) 1%nat (PStr "yolov8n-pose.pt")]))
    by reflexivity.
  destruct (load_iff_weights_truthy demo_imports _ _ _ _ _ _ _ Hrun)
    as (calls & c & nc & nkpt & v & m0 & Hlog & _ & Hiff & _).
  eexists. split; [exact Hrun|].
  simpl in Hlog. rewrite Hlog. apply Hiff. reflexivity.
Defined.


(** * Further properties *)

(** ** Data of the examples

    An environment in which every call of [TrainerMethods] returns, a
    framework whose parent constructor returns the loss of [Demo], and the
    inputs the examples below run on. *)

Definition demo_ext : TrainerMethods.Externals (H:=fw) := {|
  TrainerMethods.copy := λ v, Some v;
  TrainerMethods.PoseValidator := λ _ _ _, Some (PObj 7);
  TrainerMethods.squeeze := λ v, Some v;
  TrainerMethods.path_join := λ _ name, Some (PStr name);
  TrainerMethods.plot_images := λ _ _ _ _ _ _ _, Some ();
  TrainerMethods.plot_results := λ _ _, Some ();
  TrainerMethods.YOLO := λ _, Some (PObj 8);
  TrainerMethods.YOLO_train := λ _ _, Some ();
  TrainerMethods.Trainer_train := λ _, Some ()
|}.

Definition demo_attrs : TrainerMethods.Attrs :=
  TrainerMethods.mkAttrs None (Some (PObj 1)) (Some (PStr "runs/pose"))
    (Some (PObj 2)) (Some (PStr "results.csv")).

Definition demo_plot_batch : gmap string pyval :=
  <["img" := PObj 10]> (<["keypoints" := PObj 11]> (<["cls" := PObj 12]>
    (<["bboxes" := PObj 13]> (<["im_file" := PObj 14]>
       (<["batch_idx" := PObj 15]> ∅))))).

Definition demo_cfg : gmap string pyval :=
  <["model" := PNone]> (<["data" := PStr "coco8-pose.yaml"]>
    (<["device" := PInt 0]> ∅)).

Definition fw_init : Framework := {|
  Model := nat;
  sigmoid := sigmoid (Framework:=fw);
  make_anchors := make_anchors (Framework:=fw);
  xyxy2xywh := xyxy2xywh (Framework:=fw);
  Loss_init := λ _, Some (demo_loss true half);
  head_nkpt := λ _, Some 1%nat;
  BCEWithLogitsLoss := BCEWithLogitsLoss (Framework:=fw);
  KeypointLoss := KeypointLoss (Framework:=fw)
|}.

Definition demo_imports_init : Imports (H:=fw_init) := {|
  DEFAULT_CFG := PStr "default.yaml";
  DetectionTrainer_init := λ _ d, Some (mkTrainer (H:=fw_init) d 0%nat None);
  PoseModel := λ _ _ _ _ _, Some 1%nat;
  load := λ m _, Some (S m);
  de_parallel := λ m, Some m
|}.

Definition demo_trainer_init : Trainer (H:=fw_init) :=
  mkTrainer (H:=fw_init) ∅ 0%nat None.

Definition demo_trainer_cached : Trainer (H:=fw) :=
  mkTrainer (H:=fw) ∅ 0%nat (Some (demo_self true half)).

(** ** [kpts_decode] *)

Lemma expand_is_Some {A} n (l : list A) :
  is_Some (expand n l) ↔ length l = n ∨ length l = 1%nat.
Proof.
  unfold expand. case_decide.
  - split; [by left|by eauto].
  - destruct l as [|x [|y l]]; simpl; split; intros Hs; try (by eauto);
      try (by destruct Hs); destruct Hs; done || lia.
Qed.

(** X1. [kpts_decode] returns exactly when the anchors broadcast to the
    rows of the predictions: there is one anchor per row, or one anchor in
    all.  Otherwise the in-place addition raises. *)
Theorem kpts_decode_returns_iff ap (v : mat) bbox :
  is_Some (kpts_decode ap v bbox) ↔ length ap = length v ∨ length ap = 1%nat.
Proof.
  rewrite <- expand_is_Some. split.
  - intros [out Hout]. destruct (kpts_decode_Some _ _ _ _ Hout) as (aps & He & _).
    by rewrite He.
  - intros [aps He]. rewrite (kpts_decode_value _ _ bbox _ He). by eexists.
Qed.

Lemma length_decode_row row a : length (decode_row row a) = length row.
Proof. unfold decode_row. by rewrite !length_stride_upd. Qed.

Lemma lookup_decode_row row a j :
  decode_row row a !! j = decoded a j <$> row !! j.
Proof.
  destruct (row !! j) as [x|] eqn:Hj.
  - exact (decode_row_lookup a row j x Hj).
  - simpl. apply lookup_ge_None. rewrite length_decode_row.
    by apply lookup_ge_None.
Qed.

(** The visibility channels of a decoded row are those of the row. *)
Lemma visibility_decode_row row a :
  stride_get 2 3 (decode_row row a) = stride_get 2 3 row.
Proof.
  apply list_eq. intros k. rewrite !lookup_stride_get by lia.
  rewrite lookup_decode_row.
  assert (Hm : ((2 + k * 3) mod 3 = 2)%nat) by (by rewrite Nat.Div0.mod_add).
  generalize dependent (2 + k * 3)%nat. intros j Hm.
  destruct (row !! j) as [x|]; [|done].
  change (Some (decoded a j x) = Some x). f_equal.
  unfold decoded. rewrite Hm. done.
Qed.

Lemma fmap_zip_with_l {A B C} (g : A → C) (f : A → B → A) (l : list A) (k : list B) :
  length k = length l → (∀ x y, g (f x y) = g x) →
  g <$> zip_with f l k = g <$> l.
Proof.
  intros Hl Hg. revert k Hl. induction l as [|x l IH]; intros [|y k] Hl;
    simpl in *; try done.
  rewrite Hg. f_equal. apply IH. lia.
Qed.

Lemma kpts_decode_length ap (v : mat) bbox out :
  kpts_decode ap v bbox = Some out → length out = length v.
Proof.
  intros Hd. destruct (kpts_decode_Some _ _ _ _ Hd) as (aps & He & ->).
  destruct (expand_Some _ _ _ He) as [Hlen _].
  rewrite length_zip_with. lia.
Qed.

Lemma kpts_decode_visibility ap (v : mat) bbox out :
  kpts_decode ap v bbox = Some out →
  stride_get 2 3 <$> out = stride_get 2 3 <$> v.
Proof.
  intros Hd. destruct (kpts_decode_Some _ _ _ _ Hd) as (aps & He & ->).
  destruct (expand_Some _ _ _ He) as [Hlen _].
  apply fmap_zip_with_l; [done|]. intros. apply visibility_decode_row.
Qed.

(** X2. The tensor [kpts_decode] returns has the shape of [pred_kpts]
    (as many rows, each of the same length), and its visibility channels
    [y[:, 2::3]] are those of [pred_kpts]: only the x and y channels are
    decoded. *)
Theorem kpts_decode_keeps_shape_and_visibility ap (v : mat) bbox out :
  kpts_decode ap v bbox = Some out →
  length out = length v ∧
  length <$> out = length <$> v ∧
  stride_get 2 3 <$> out = stride_get 2 3 <$> v.
Proof.
  intros Hd. split_and!.
  - by apply kpts_decode_length in Hd.
  - destruct (kpts_decode_Some _ _ _ _ Hd) as (aps & He & ->).
    destruct (expand_Some _ _ _ He) as [Hlen _].
    apply fmap_zip_with_l; [done|]. intros. apply length_decode_row.
  - by apply kpts_decode_visibility in Hd.
Qed.

Lemma kpts_decode_keeps_shape_and_visibility_witness :
  ∃ out, kpts_decode [(two, 1)] [[1; two; 1; 0; half; 0]] [] = Some out ∧
         stride_get 2 3 <$> out = [[1; 0]].
Proof.
  assert (Hd : kpts_decode [(two, 1)] [[1; two; 1; 0; half; 0]] []
               = Some [decode_row [1; two; 1; 0; half; 0] (two, 1)])
    by reflexivity.
  eexists. split; [exact Hd|].
  destruct (kpts_decode_keeps_shape_and_visibility _ _ _ _ Hd) as (_ & _ & Hv).
  exact Hv.
Defined.

Lemma select_zip_with {A B C} (f : A → B → C) m (l : list A) (k : list B) :
  select m (zip_with f l k) = zip_with f (select m l) (select m k).
Proof.
  revert l k. induction m as [|b m IH]; intros [|x l] [|y k]; simpl; try done.
  - by destruct b; simpl; destruct (select m l).
  - destruct b; simpl; by rewrite IH.
Qed.

(** X4. Decoding commutes with the selection of rows by a mask: with one
    anchor per row, decoding the selected rows against the selected anchors
    (what the loop of [__call__] does with [fg_mask[i]]) gives the selected
    rows of the decoding of the whole tensor. *)
Theorem kpts_decode_commutes_with_mask (m : list bool) ap (v : mat) bbox bbox' out :
  length m = length ap → length ap = length v →
  kpts_decode ap v bbox = Some out →
  kpts_decode (select m ap) (select m v) bbox' = Some (select m out).
Proof.
  intros Hm Hv Hd. destruct (kpts_decode_Some _ _ _ _ Hd) as (aps & He & ->).
  destruct (expand_Some _ _ _ He) as [_ Haps]. rewrite (Haps Hv) in *.
  rewrite select_zip_with. apply kpts_decode_value.
  unfold expand. rewrite decide_True; [done|].
  rewrite !length_select by lia. done.
Qed.

Lemma kpts_decode_commutes_with_mask_witness :
  kpts_decode (select [false; true] [(two, 1); (1, two)])
    (select [false; true] [[1; two; 1]; [0; half; 0]]) []
  = Some (select [false; true]
            [decode_row [1; two; 1] (two, 1); decode_row [0; half; 0] (1, two)]).
Proof.
  apply (kpts_decode_commutes_with_mask [false; true] [(two, 1); (1, two)]
           [[1; two; 1]; [0; half; 0]] [] []); reflexivity.
Defined.

(** ** [__call__] *)

Lemma elem_of_select {A} (m : list bool) (l : list A) a x :
  m !! a = Some true → l !! a = Some x → x ∈ select m l.
Proof.
  revert l a. induction m as [|b m IH]; intros [|y l] [|a] Hm Hl;
    simpl in *; simplify_eq; try done.
  - left.
  - destruct b; [right|]; by apply (IH l a).
Qed.

Lemma mask_count_pos (m : list bool) a : m !! a = Some true → mask_count m ≠ 0%nat.
Proof.
  unfold mask_count. intros Ha Hz. apply length_zero_iff_nil in Hz.
  assert (Hin : true ∈ filter (λ b, b = true) m).
  { apply list_elem_of_filter. split; [done|]. by apply list_elem_of_lookup_2 in Ha. }
  rewrite Hz in Hin. by apply elem_of_nil in Hin.
Qed.

Lemma py_get_range {A} (l : list A) z x :
  py_get l z = Some x → (- Z.of_nat (length l) ≤ z < Z.of_nat (length l))%Z.
Proof.
  unfold py_get. repeat case_decide; try done; intros Hl%lookup_lt_Some; lia.
Qed.

Section CallMore.
Context `{Framework} (self : Self).

(** X5. [__call__] raises when there is no feature map, when the first
    feature map has batch dimension 0, when the head has no output channel,
    when [4 * reg_max + nc] is not the number of output channels, when
    [self.stride] is empty, and when the batch does not have as many image
    indices as classes and as boxes. *)
Theorem call_raises_on_malformed_input preds batch :
  (unpack preds).1 = [] ∨
  (∃ f0, head (unpack preds).1 = Some f0 ∧ f_b f0 = 0%nat) ∨
  no self = 0%nat ∨
  (reg_max self * 4 + nc self)%nat ≠ no self ∨
  stride self = [] ∨
  length (batch_idx batch) ≠ length (cls batch) ∨
  length (cls batch) ≠ length (bboxes batch) →
  __call__ self preds batch = None.
Proof.
  intros Hbad. unfold __call__.
  destruct (run self preds batch) as [fr|] eqn:Hrun; [exfalso|done].
  destruct (run_front _ _ _ _ Hrun)
    as (f0 & views & cat & pd & ps & s0 & Hh & Hv & Hc & Hs & _ & _ & _ & Hs0 & _).
  destruct (run_targets _ _ _ _ Hrun) as (t0 & t & Ht0 & _).
  assert (Hview : ∃ t, view3 (f_b f0) (no self) f0 = Some t).
  { destruct (unpack preds).1 as [|x feats]; [done|]. simpl in Hh. simplify_eq.
    apply mapM_Some_1 in Hv. inversion Hv; subst. eauto. }
  destruct Hview as [t1 Hview]. unfold view3 in Hview.
  case_decide as Hbc; [done|]. clear Hview.
  destruct Hbad as [Hb|[(f0' & Hh' & Hb)|[Hb|[Hb|[Hb|[Hb|Hb]]]]]].
  - rewrite Hb in Hh. discriminate Hh.
  - rewrite Hh in Hh'. simplify_eq. rewrite Hb in Hbc. lia.
  - rewrite Hb in Hbc. lia.
  - unfold split1 in Hs. by case_decide.
  - rewrite Hb in Hs0. discriminate Hs0.
  - unfold cat_targets in Ht0. case_decide as Hl; [|done]. by destruct Hl.
  - unfold cat_targets in Ht0. case_decide as Hl; [|done]. by destruct Hl.
Qed.

(** X7. When the assigner marks no anchor as foreground, the keypoints of
    the batch and the two pose losses of [self] are not consulted: the call
    gives the same result whatever they are.  The returned vector is zero
    but for the classification component, and the total is the batch size
    times that component. *)
Theorem no_foreground_ignores_pose preds batch fr kp n' bp' kl' :
  run self preds batch = Some fr →
  mask_count2 (fr_fg_mask fr) = 0%nat →
  run (mkSelf (base self) n' bp' kl') preds
    (mkBatch (batch_idx batch) (cls batch) (bboxes batch) kp) = Some fr ∧
  ∃ cl, fr_terms fr !! 3%nat = Some cl ∧
        fr_result fr = (Qc_of_nat (fr_batch_size fr) * (cl * hyp_cls self),
                        [0; 0; 0; cl * hyp_cls self; 0]).
Proof.
  intros Hrun Hfg. unfold run in *. cbn [batch_idx cls bboxes keypoints base].
  destruct (unpack preds) as [feats pk].
  cbv beta delta [mbind option_bind] in *.
  repeat match type of Hrun with
  | match ?e with Some _ => _ | None => None end = Some _ =>
      let E := fresh "E" in destruct e eqn:E; [|discriminate Hrun]
  | match ?p with (_, _) => _ end = Some _ => destruct p
  end.
  injection Hrun as <-. cbn [fr_fg_mask fr_terms fr_result fr_batch_size] in *.
  destruct (decide (mask_count2 (a_fg_mask a) = 0%nat)) as [_|Hn]; [|done].
  simplify_eq. split; [done|].
  eexists. split; [reflexivity|]. cbn [foldl].
  f_equal; [ring|].
  f_equal; [ring|]. f_equal; [ring|]. f_equal; [ring|]. f_equal. f_equal. ring.
Qed.

(** X8. In every iteration of the keypoint loop that computes a loss, the
    indices, the ground-truth keypoints, the keypoint mask and the decoded
    predictions have one row per foreground anchor of the image, and there
    is at least one. *)
Theorem keypoint_rows_per_foreground_anchor preds batch fr f :
  run self preds batch = Some fr → f ∈ fr_kpt fr →
  ∃ fgi,
    fr_fg_mask fr !! k_i f = Some fgi ∧ (0 < mask_count fgi)%nat ∧
    length (k_idx f) = mask_count fgi ∧
    length (k_gt_kpt f) = mask_count fgi ∧
    length (k_kpt_mask f) = mask_count fgi ∧
    length (k_pred_kpt f) = mask_count fgi.
Proof.
  intros Hrun Hf.
  destruct (run_frames _ _ _ _ Hrun) as [Hfr _].
  rewrite list.Forall_forall in Hfr. specialize (Hfr f Hf).
  destruct (ks_fg _ _ _ _ _ _ _ _ _ _ _ Hfr)
    as (fgi & Hfg & Hc & (gi & Hgi & Hidx) & (rows & g0 & sti & g1 & R1 & R2 & R3 & R4 & R5)
        & (tbi & tbs & T1 & T2 & T3) & (api & pki & pks & P1 & P2 & P3 & P4)).
  exists fgi.
  apply mask_select_Some in Hidx as [Hl1 Hidx].
  assert (Hi : length (k_idx f) = mask_count fgi).
  { rewrite Hidx. by apply length_select. }
  assert (Hg0 : length g0 = mask_count fgi).
  { rewrite <- Hi. symmetry. apply (length_mapM _ _ _ R2). }
  assert (Hri : ∀ (g : vec → Qc → vec) (t t' : mat) (l : vec),
             rows_inplace g t l = Some t' → length t' = length t).
  { intros g t t' l Hr. unfold rows_inplace in Hr.
    destruct (expand (length t) l) as [l'|] eqn:He; [|done]. simpl in Hr.
    simplify_eq. destruct (expand_Some _ _ _ He) as [Hl _].
    rewrite length_zip_with. lia. }
  assert (Hgt : length (k_gt_kpt f) = mask_count fgi).
  { rewrite (Hri _ _ _ _ R5), (Hri _ _ _ _ R4). done. }
  split_and!; [done|lia|done|done| |].
  - by rewrite (ks_mask _ _ _ _ _ _ _ _ _ _ _ Hfr), length_fmap.
  - rewrite (kpts_decode_length _ _ _ _ P4).
    apply mask_select_Some in P3 as [Hl3 ->]. by apply length_select.
Qed.

(** X9. The visibility loss of an image is computed on the visibility
    channels of the network output itself: for the rows of [pred_kpts[i]]
    the foreground mask selects, the channels [2, 5, 8, ...] given to
    [bce_pose] are those of the permuted [pred_kpts], untouched by
    [kpts_decode]. *)
Theorem visibility_logits_are_raw preds batch fr f :
  run self preds batch = Some fr → f ∈ fr_kpt fr →
  ∃ fgi pki,
    fr_fg_mask fr !! k_i f = Some fgi ∧
    permute021 (unpack preds).2 !! k_i f = Some pki ∧
    length fgi = length pki ∧
    stride_get 2 3 <$> k_pred_kpt f = stride_get 2 3 <$> select fgi pki ∧
    bce_pose self (stride_get 2 3 <$> select fgi pki)
      ((λ row : list bool, b2q <$> row) <$> k_kpt_mask f) = Some (k_vis f).
Proof.
  intros Hrun Hf.
  destruct (run_frames _ _ _ _ Hrun) as [Hfr _].
  destruct (run_front _ _ _ _ Hrun)
    as (f0 & views & cat & pd & ps & s0 & _ & _ & _ & _ & _ & _ & Hpk & _).
  rewrite list.Forall_forall in Hfr. specialize (Hfr f Hf).
  destruct (ks_fg _ _ _ _ _ _ _ _ _ _ _ Hfr)
    as (fgi & Hfg & _ & _ & _ & _ & (api & pki & pks & P1 & P2 & P3 & P4)).
  apply mask_select_Some in P3 as [Hl3 ->].
  pose proof (kpts_decode_visibility _ _ _ _ P4) as Hvis.
  exists fgi, pki. rewrite <- Hpk. split_and!; [done..| ].
  rewrite <- Hvis. apply (ks_vis _ _ _ _ _ _ _ _ _ _ _ Hfr).
Qed.

(** X10. A call that returns has found a label for every foreground
    anchor: if anchor [a] of image [i] is foreground and assigned the
    ground-truth index [z], then [z] is a valid index (negative ones
    counting from the end) into the labels of image [i], so the batch holds
    a label of that image.  Otherwise the indexing of the keypoints
    raises. *)
Theorem assigned_labels_in_range preds batch fr i fgi gi a z :
  run self preds batch = Some fr →
  (i < fr_batch_size fr)%nat →
  fr_fg_mask fr !! i = Some fgi → fr_target_gt_idx fr !! i = Some gi →
  fgi !! a = Some true → gi !! a = Some z →
  let labels := select ((λ v, bool_decide (v = Qc_of_nat i)) <$> batch_idx batch)
                  (keypoints batch) in
  (- Z.of_nat (length labels) ≤ z < Z.of_nat (length labels))%Z ∧
  ∃ j, batch_idx batch !! j = Some (Qc_of_nat i).
Proof.
  intros Hrun Hi Hfg Hgi Ha Hz labels.
  destruct (run_frames _ _ _ _ Hrun) as [Hfr Hidx].
  assert (Hin : i ∈ k_i <$> fr_kpt fr).
  { rewrite Hidx. apply list_elem_of_filter. split.
    - unfold has_fg. rewrite Hfg. simpl. apply bool_decide_pack.
      by apply (mask_count_pos _ a).
    - apply elem_of_seq. lia. }
  apply list_elem_of_fmap in Hin as (f & -> & Hf).
  rewrite list.Forall_forall in Hfr. specialize (Hfr f Hf).
  destruct (ks_fg _ _ _ _ _ _ _ _ _ _ _ Hfr)
    as (fgi' & Hfg' & _ & (gi' & Hgi' & Hsel) & (rows & g0 & sti & g1 & R1 & R2 & _) & _).
  simplify_eq.
  apply mask_select_Some in Hsel as [_ Hsel].
  apply mask_select_Some in R1 as [Hl1 ->].
  assert (Hzin : z ∈ k_idx f) by (rewrite Hsel; by apply (elem_of_select _ _ a)).
  unfold index_rows in R2. apply mapM_Some_1 in R2.
  apply list_elem_of_lookup_1 in Hzin as [r Hr].
  destruct (Forall2_lookup_l _ _ _ _ _ R2 Hr) as (row & _ & Hget).
  rewrite keypoints_px_rows, select_fmap, py_get_fmap in Hget.
  destruct (py_get _ z) as [raw|] eqn:Hraw; [|done].
  pose proof (py_get_range _ _ _ Hraw) as Hrange.
  split; [exact Hrange|].
  assert (Hne : (0 < length labels)%nat) by (unfold labels; lia).
  destruct labels as [|raw0 rest] eqn:Hlab; [simpl in Hne; lia|].
  assert (Hl0 : labels !! 0%nat = Some raw0) by (by rewrite Hlab).
  unfold labels in Hl0.
  apply lookup_select in Hl0 as (j & Hj & _).
  rewrite list_lookup_fmap in Hj.
  destruct (batch_idx batch !! j) as [v|] eqn:Hv; [|done].
  simpl in Hj. injection Hj as Hj. apply bool_decide_eq_true in Hj. subst v.
  by exists j.
Qed.

End CallMore.

Lemma call_raises_on_malformed_input_witness :
  __call__ (H:=fw) (demo_self true half) (PredsTrain [] []) demo_batch = None.
Proof.
  apply (call_raises_on_malformed_input (H:=fw)). left. reflexivity.
Defined.

Lemma no_foreground_ignores_pose_witness :
  ∃ fr,
    run (H:=fw) (demo_self false 0) demo_preds demo_batch = Some fr ∧
    run (H:=fw) (mkSelf (demo_loss false 0) 17 (λ _ _, None) (λ _ _ _ _, None))
      demo_preds (mkBatch [0] [0] [mkBox 0 0 half half] []) = Some fr.
Proof.
  destruct demo_run_no_fg as (fr & Hrun & Hfg). exists fr. split; [exact Hrun|].
  destruct (no_foreground_ignores_pose (H:=fw) _ _ _ _ [] 17%nat (λ _ _, None)
              (λ _ _ _ _, None) Hrun Hfg) as [Hrun' _].
  exact Hrun'.
Defined.

(** The frame of the image of the run of [Demo] with a foreground anchor. *)
Lemma demo_run_frame :
  ∃ fr f,
    run (H:=fw) (demo_self true half) demo_preds demo_batch = Some fr ∧
    f ∈ fr_kpt fr ∧ (0 < fr_batch_size fr)%nat ∧
    fr_fg_mask fr !! 0%nat = Some [true] ∧
    fr_target_gt_idx fr !! 0%nat = Some [0%Z].
Proof.
  vm_compute. eexists _, _. split; [reflexivity|].
  split; [left|]. split; [vm_compute; lia|]. split; reflexivity.
Defined.

Lemma keypoint_rows_per_foreground_anchor_witness :
  ∃ fr f,
    run (H:=fw) (demo_self true half) demo_preds demo_batch = Some fr ∧
    f ∈ fr_kpt fr ∧ length (k_gt_kpt f) = length (k_pred_kpt f).
Proof.
  destruct demo_run_frame as (fr & f & Hrun & Hf & _).
  exists fr, f. split; [exact Hrun|]. split; [exact Hf|].
  destruct (keypoint_rows_per_foreground_anchor (H:=fw) _ _ _ _ _ Hrun Hf)
    as (fgi & _ & _ & _ & Hg & _ & Hp).
  rewrite Hg, Hp. reflexivity.
Defined.

Lemma visibility_logits_are_raw_witness :
  ∃ fr f fgi pki,
    run (H:=fw) (demo_self true half) demo_preds demo_batch = Some fr ∧
    f ∈ fr_kpt fr ∧
    stride_get 2 3 <$> k_pred_kpt f = stride_get 2 3 <$> select fgi pki.
Proof.
  destruct demo_run_frame as (fr & f & Hrun & Hf & _).
  destruct (visibility_logits_are_raw (H:=fw) _ _ _ _ _ Hrun Hf)
    as (fgi & pki & _ & _ & _ & Hv & _).
  exists fr, f, fgi, pki. split; [exact Hrun|]. split; [exact Hf|exact Hv].
Defined.

Lemma assigned_labels_in_range_witness :
  ∃ j, batch_idx demo_batch !! j = Some (Qc_of_nat 0).
Proof.
  destruct demo_run_frame as (fr & f & Hrun & _ & Hpos & Hfg & Hgi).
  destruct (assigned_labels_in_range (H:=fw) _ _ _ _ 0%nat [true] [0%Z] 0%nat 0%Z
              Hrun Hpos Hfg Hgi eq_refl eq_refl) as [_ Hj].
  exact Hj.
Defined.

(** ** [criterion] and [PoseLoss.__init__] *)

Section TrainerMore.
Context `{Framework} (imp : Imports).

Ltac unfold_crit :=
  unfold criterion, mbind, M_bind, mret, M_ret, call, lift, option_bind in *;
  cbv zeta in *.

(** X11. [criterion] builds the loss at most once.  After a call that
    returned, the trainer holds a loss (the one it held before, if any), its
    data and model are unchanged, and every later call only applies that
    loss: it calls neither [de_parallel] nor the constructor of [PoseLoss],
    and leaves the trainer as it is. *)
Theorem criterion_builds_loss_once self p1 b1 log r1 self1 log1 :
  criterion imp self p1 b1 log = Some (r1, self1, log1) →
  ∃ l, compute_loss self1 = Some l ∧
       data self1 = data self ∧ model self1 = model self ∧
       (∀ l0, compute_loss self = Some l0 → l0 = l) ∧
       PoseLoss.__call__ l p1 b1 = Some r1 ∧
       ∀ p2 b2 log2,
         criterion imp self1 p2 b2 log2
         = (r ← PoseLoss.__call__ l p2 b2;
            Some (r, self1, log2 ++ [CallComputeLoss p2 b2])).
Proof.
  intros Hc. pose proof (criterion_calls imp _ _ _ _ _ _ _ Hc) as Hcalls.
  assert (Hlater : ∀ l, compute_loss self1 = Some l →
            ∀ p2 b2 log2,
              criterion imp self1 p2 b2 log2
              = (r ← PoseLoss.__call__ l p2 b2;
                 Some (r, self1, log2 ++ [CallComputeLoss p2 b2]))).
  { intros l Hl p2 b2 log2. unfold_crit. rewrite Hl. simpl. rewrite Hl. simpl.
    by destruct (PoseLoss.__call__ l p2 b2). }
  destruct (compute_loss self) as [l|] eqn:Hl.
  - destruct Hcalls as (-> & _ & Hr). exists l.
    split_and!; [done..| |done|by apply Hlater].
    by intros l0 [= ->].
  - destruct Hcalls as (m & l & _ & _ & Hl1 & Hr & _). exists l.
    assert (self1 = mkTrainer (data self) (model self) (Some l)) as Hs.
    { revert Hc. unfold_crit. rewrite Hl.
      destruct (de_parallel imp (model self)) as [m'|]; [|done]. simpl.
      destruct (PoseLoss.__init__ m') as [l'|]; [|done]. simpl.
      destruct (PoseLoss.__call__ l' p1 b1) as [r'|]; [|done]. simpl.
      intros ?; simplify_eq. simpl in Hl1. by simplify_eq. }
    split_and!; [done|by rewrite Hs|by rewrite Hs|done|done|by apply Hlater].
Qed.

(** X12. On a trainer that holds no loss yet, [criterion] returns exactly
    when [de_parallel] returns a model, the parent constructor [Loss]
    accepts it, its last layer has an [nkpt], and the loss built from them
    returns: the keypoint loss is constructed for the device of the parent
    and that [nkpt], the visibility loss is a [BCEWithLogitsLoss], the loss
    is stored in the trainer, and the three calls are made in this order. *)
Theorem criterion_first_call self preds batch log r self' log' :
  compute_loss self = None →
  criterion imp self preds batch log = Some (r, self', log') ↔
  ∃ m b n,
    de_parallel imp (model self) = Some m ∧
    Loss_init m = Some b ∧ head_nkpt m = Some n ∧
    PoseLoss.__call__ (mkSelf b n BCEWithLogitsLoss (KeypointLoss (device b) n))
      preds batch = Some r ∧
    self' = mkTrainer (data self) (model self)
              (Some (mkSelf b n BCEWithLogitsLoss (KeypointLoss (device b) n))) ∧
    log' = log ++ [CallDeParallel (model self); CallLossInit m;
                   CallComputeLoss preds batch].
Proof.
  intros Hl. unfold_crit. unfold PoseLoss.__init__. rewrite Hl. split.
  - destruct (de_parallel imp (model self)) as [m|]; [|done]. simpl.
    destruct (Loss_init m) as [b|] eqn:Hb; [|done]. simpl.
    destruct (head_nkpt m) as [n|] eqn:Hn; [|done]. simpl.
    destruct (PoseLoss.__call__ _ preds batch) as [r'|] eqn:Hr; [|done]. simpl.
    intros ?; simplify_eq. exists m, b, n. split_and!; try done.
    by rewrite <- !app_assoc.
  - intros (m & b & n & -> & Hb & Hn & Hr & -> & ->). simpl.
    rewrite Hb. simpl. rewrite Hn. simpl. rewrite Hr. simpl.
    by rewrite <- !app_assoc.
Qed.

End TrainerMore.

(** The criterion of a trainer that holds a loss returns. *)
Lemma demo_criterion_cached :
  ∃ r log1,
    criterion demo_imports demo_trainer_cached demo_preds demo_batch []
    = Some (r, demo_trainer_cached, log1).
Proof.
  destruct demo_run_fg as (fr & Hrun & _).
  exists (fr_result fr), [CallComputeLoss (H:=fw) demo_preds demo_batch].
  unfold criterion, demo_trainer_cached, mbind, M_bind, mret, M_ret, call, lift,
    option_bind, PoseLoss.__call__.
  cbn [compute_loss]. cbv beta iota delta [mbind option_bind].
  rewrite Hrun. reflexivity.
Defined.

Lemma criterion_builds_loss_once_witness :
  ∃ r log1,
    criterion demo_imports demo_trainer_cached demo_preds demo_batch []
      = Some (r, demo_trainer_cached, log1) ∧
    criterion demo_imports demo_trainer_cached demo_preds demo_batch log1
      = Some (r, demo_trainer_cached, log1 ++ [CallComputeLoss (H:=fw) demo_preds demo_batch]).
Proof.
  destruct demo_criterion_cached as (r & log1 & Hc).
  destruct (criterion_builds_loss_once demo_imports _ _ _ _ _ _ _ Hc)
    as (l & Hl & _ & _ & _ & Hr & Hlater).
  exists r, log1. split; [exact Hc|].
  rewrite (Hlater demo_preds demo_batch log1), Hr. reflexivity.
Defined.

(** The loss the constructor builds in [fw_init] returns on the batch of
    [Demo]. *)
Lemma demo_run_init :
  ∃ fr, run (H:=fw_init)
          (mkSelf (demo_loss true half) 1
             (BCEWithLogitsLoss (Framework:=fw_init))
             (KeypointLoss (Framework:=fw_init) "cpu" 1))
          demo_preds demo_batch = Some fr.
Proof. vm_compute. eexists. reflexivity. Defined.

Lemma demo_call_init :
  ∃ r, PoseLoss.__call__ (H:=fw_init)
         (mkSelf (demo_loss true half) 1
            (BCEWithLogitsLoss (Framework:=fw_init))
            (KeypointLoss (Framework:=fw_init) "cpu" 1))
         demo_preds demo_batch = Some r.
Proof.
  destruct demo_run_init as (fr & Hrun). exists (fr_result fr).
  unfold PoseLoss.__call__. rewrite Hrun. reflexivity.
Defined.

Lemma criterion_first_call_witness :
  ∃ r t,
    criterion demo_imports_init demo_trainer_init demo_preds demo_batch []
    = Some (r, t, [CallDeParallel (H:=fw_init) 0%nat; CallLossInit (H:=fw_init) 0%nat;
                   CallComputeLoss (H:=fw_init) demo_preds demo_batch]).
Proof.
  destruct demo_call_init as (r & Hr).
  exists r, (mkTrainer (H:=fw_init) ∅ 0%nat
               (Some (mkSelf (demo_loss true half) 1
                        (BCEWithLogitsLoss (Framework:=fw_init))
                        (KeypointLoss (Framework:=fw_init) "cpu" 1)))).
  apply (criterion_first_call demo_imports_init demo_trainer_init demo_preds
           demo_batch [] r); [reflexivity|].
  exists 0%nat, (demo_loss true half), 1%nat.
  split_and!; [reflexivity|reflexivity|reflexivity|exact Hr|reflexivity|reflexivity].
Defined.

(** ** [get_validator], [plot_training_samples] and [train] *)

Import TrainerMethods.

Lemma string_length_app (s t : string) :
  String.length (s +:+ t) = (String.length s + String.length t)%nat.
Proof. induction s as [|a s IH]; simpl; [done|]. by rewrite IH. Qed.

Lemma string_app_inv_tail (s1 s2 t : string) : s1 +:+ t = s2 +:+ t → s1 = s2.
Proof.
  revert s2. induction s1 as [|a s1 IH]; intros [|b s2] E.
  - done.
  - apply (f_equal String.length) in E.
    rewrite !string_length_app in E. simpl in E. lia.
  - apply (f_equal String.length) in E.
    rewrite !string_length_app in E. simpl in E. lia.
  - change (String a (s1 +:+ t) = String b (s2 +:+ t)) in E.
    injection E as -> E. f_equal. by apply IH.
Qed.

(** Different iterations give different file names. *)
Lemma train_batch_name_inj ni ni' :
  train_batch_name ni = train_batch_name ni' → ni = ni'.
Proof.
  unfold train_batch_name. intros E.
  apply (inj (String.app "train_batch")) in E.
  apply string_app_inv_tail in E. by apply (inj pretty.pretty) in E.
Qed.

Section MethodsProps.
Context `{Framework} (ext : Externals) (imp : Imports).

Ltac unfold_E :=
  unfold mbind, E_bind, mret, E_ret, elift, ecall, attr, set_loss_names,
    getattr, setattr, construct in *;
  cbn [fst snd] in *.

(** Whatever [get_validator] does afterwards, it has assigned the names. *)
Lemma get_validator_attrs (st : Attrs * list Event) :
  (get_validator ext st).2.1
  = mkAttrs (Some ["box_loss"; "pose_loss"; "kobj_loss"; "cls_loss"; "dfl_loss"])
      (test_loader st.1) (save_dir st.1) (args st.1) (csv st.1).
Proof.
  unfold get_validator. unfold_E. simpl.
  destruct (test_loader st.1) as [tl|], (save_dir st.1) as [sd|],
    (args st.1) as [a|]; simpl; try reflexivity.
  destruct (copy ext a) as [a'|]; simpl; [|reflexivity].
  by destruct (PoseValidator ext tl sd a').
Qed.

(** X13. [get_validator] assigns [loss_names] before anything can raise:
    whether or not the validator is constructed, the trainer then has the
    five names box, pose, kobj, cls and dfl loss, one for each component of
    the vector a call of [PoseLoss] returns, and its other attributes are
    unchanged. *)
Theorem loss_names_label_the_loss_vector (st : Attrs * list Event) (l : Self)
    preds batch r :
  PoseLoss.__call__ l preds batch = Some r →
  ∃ names,
    loss_names (get_validator ext st).2.1 = Some names ∧
    names = ["box_loss"; "pose_loss"; "kobj_loss"; "cls_loss"; "dfl_loss"] ∧
    length r.2 = length names ∧
    test_loader (get_validator ext st).2.1 = test_loader st.1 ∧
    save_dir (get_validator ext st).2.1 = save_dir st.1 ∧
    args (get_validator ext st).2.1 = args st.1 ∧
    csv (get_validator ext st).2.1 = csv st.1.
Proof.
  intros Hc. rewrite get_validator_attrs. eexists.
  split_and!; [reflexivity|reflexivity| |reflexivity..].
  unfold PoseLoss.__call__ in Hc.
  destruct (run l preds batch) as [fr|] eqn:Hrun; [|done].
  simpl in Hc. simplify_eq.
  destruct (run_result _ _ _ _ Hrun) as (l0 & l1 & l2 & l3 & l4 & _ & Hl & ->).
  by rewrite Hl.
Qed.

(** What a plot of iteration [ni] leaves: the attributes as they were, and
    after the log the calls that returned. *)
Lemma plot_trace batch ni (st : Attrs * list Event) :
  ∃ evs,
    (plot_training_samples ext batch ni st).2 = (st.1, st.2 ++ evs) ∧
    (∀ sd name, EvPathJoin sd name ∈ evs → name = train_batch_name ni) ∧
    ((∃ k, k ∈ ["img"; "keypoints"; "cls"; "bboxes"; "im_file"; "batch_idx"] ∧
           batch !! k = None) →
     (plot_training_samples ext batch ni st).1 = None ∧
     Forall (λ ev, ∃ c, ev = EvSqueeze c) evs).
Proof.
  unfold plot_training_samples. unfold_E. destruct st as [a log]. simpl.
  destruct (batch !! "img") as [v1|] eqn:E1; simpl;
    [|exists []; rewrite app_nil_r; split_and!; [done|by intros ?? ?%elem_of_nil|done]].
  destruct (batch !! "keypoints") as [v2|] eqn:E2; simpl;
    [|exists []; rewrite app_nil_r; split_and!; [done|by intros ?? ?%elem_of_nil|done]].
  destruct (batch !! "cls") as [v3|] eqn:E3; simpl;
    [|exists []; rewrite app_nil_r; split_and!; [done|by intros ?? ?%elem_of_nil|done]].
  destruct (squeeze ext v3) as [c|]; simpl;
    [|exists []; rewrite app_nil_r; split_and!; [done|by intros ?? ?%elem_of_nil|done]].
  assert (Hsq : Forall (λ ev, ∃ c, ev = EvSqueeze c) [EvSqueeze v3]).
  { constructor; [by eexists|constructor]. }
  assert (Hn : ∀ sd name, EvPathJoin sd name ∈ [EvSqueeze v3] → name = train_batch_name ni).
  { intros sd name Hin. apply list_elem_of_singleton in Hin. done. }
  destruct (batch !! "bboxes") as [v4|] eqn:E4; simpl;
    [|exists [EvSqueeze v3]; split_and!; done].
  destruct (batch !! "im_file") as [v5|] eqn:E5; simpl;
    [|exists [EvSqueeze v3]; split_and!; done].
  destruct (batch !! "batch_idx") as [v6|] eqn:E6; simpl;
    [|exists [EvSqueeze v3]; split_and!; done].
  assert (Hkeys : ¬ ∃ k, k ∈ ["img"; "keypoints"; "cls"; "bboxes"; "im_file"; "batch_idx"]
                          ∧ batch !! k = None).
  { intros (k & Hk & Hnone).
    repeat (apply elem_of_cons in Hk as [->|Hk]; [congruence|]).
    by apply elem_of_nil in Hk. }
  destruct (save_dir a) as [sd|]; simpl;
    [|exists [EvSqueeze v3]; split_and!; done].
  destruct (path_join ext sd (train_batch_name ni)) as [fname|]; simpl;
    [|exists [EvSqueeze v3]; split_and!; done].
  destruct (plot_images ext v1 v6 c v4 v2 v5 fname); simpl.
  - eexists [_; _; _]. rewrite <- !app_assoc. split_and!; [done| |done].
    intros sd' name Hin.
    repeat (apply elem_of_cons in Hin as [Hin|Hin]; [by simplify_eq|]).
    by apply elem_of_nil in Hin.
  - eexists [_; _]. rewrite <- !app_assoc. split_and!; [done| |done].
    intros sd' name Hin.
    repeat (apply elem_of_cons in Hin as [Hin|Hin]; [by simplify_eq|]).
    by apply elem_of_nil in Hin.
Qed.

(** X14. The plots of two iterations never go to the same file name: if
    two calls of [plot_training_samples] both join the save directory with
    the same name, they are calls for the same iteration number. *)
Theorem plot_file_names_distinct a a' batch batch' ni ni' sd sd' name :
  EvPathJoin sd name ∈ (plot_training_samples ext batch ni (a, [])).2.2 →
  EvPathJoin sd' name ∈ (plot_training_samples ext batch' ni' (a', [])).2.2 →
  ni = ni'.
Proof.
  destruct (plot_trace batch ni (a, [])) as (evs & -> & Hn & _).
  destruct (plot_trace batch' ni' (a', [])) as (evs' & -> & Hn' & _).
  simpl. intros H1 H2. apply train_batch_name_inj.
  by rewrite <- (Hn _ _ H1), <- (Hn' _ _ H2).
Qed.

(** X15. When the batch lacks one of the six entries the method reads,
    [plot_training_samples] raises; it has then made no call but possibly
    the [squeeze] of the classes (no file name was built, nothing was
    plotted), and the attributes of the trainer are unchanged. *)
Theorem plot_raises_without_a_key batch ni (st : Attrs * list Event) k :
  k ∈ ["img"; "keypoints"; "cls"; "bboxes"; "im_file"; "batch_idx"] →
  batch !! k = None →
  ∃ evs,
    plot_training_samples ext batch ni st = (None, (st.1, st.2 ++ evs)) ∧
    Forall (λ ev, ∃ c, ev = EvSqueeze c) evs.
Proof.
  intros Hk Hnone.
  destruct (plot_trace batch ni st) as (evs & Hst & _ & Hraise).
  destruct Hraise as [Hr Hsq]; [by exists k|].
  exists evs. split; [|done].
  destruct (plot_training_samples ext batch ni st) as [r st']. simpl in *.
  by subst.
Qed.

(** X16. When [use_python] is falsy and [train] returns, it has
    constructed the trainer from [DEFAULT_CFG] and overrides with exactly
    the entries model, data, device and task: the task is ['pose'], model
    and data are those of [cfg] unless falsy (then the two default file
    names), the device is that of [cfg] unless it is [None] (then the empty
    string; a falsy device such as [0] is kept); it has then run the
    training of that trainer, and made no other call. *)
Theorem train_constructs_pose_trainer use_python cfg log r cfg' log' :
  truthy use_python = false →
  train ext imp use_python (cfg, log) = (Some r, (cfg', log')) →
  ∃ m d dv t (ov : gmap string pyval),
    cfg !! "model" = Some m ∧ cfg !! "data" = Some d ∧ cfg !! "device" = Some dv ∧
    dom ov = {["model"; "data"; "device"; "task"]} ∧
    ov !! "task" = Some (PStr "pose") ∧
    ov !! "model" = Some (if truthy m then m else PStr "yolov8n-pose.yaml") ∧
    ov !! "data" = Some (if truthy d then d else PStr "coco128-kpt.yaml") ∧
    (dv = PNone → ov !! "device" = Some (PStr "")) ∧
    (dv ≠ PNone → ov !! "device" = Some dv) ∧
    DetectionTrainer_init imp (DEFAULT_CFG imp) ov = Some t ∧
    Trainer_train ext t = Some r ∧
    log' = log ++ [EvTrainer (CallDetectionTrainer (DEFAULT_CFG imp) ov); EvTrain t].
Proof.
  intros Hpy. unfold train, PoseTrainer.__init__, call. unfold_E. rewrite Hpy. simpl.
  destruct (cfg !! "model") as [m|] eqn:Em; simpl; [|done].
  destruct (cfg !! "data") as [d|] eqn:Ed; simpl; [|done].
  destruct (cfg !! "device") as [dv|] eqn:Edv; simpl; [|done].
  match goal with
  | |- context [DetectionTrainer_init imp ?c ?o] =>
      set (ov := o); destruct (DetectionTrainer_init imp c ov) as [t|] eqn:Et
  end; simpl; [|done].
  destruct (Trainer_train ext t) as [u|] eqn:Etr; simpl; [|done].
  intros ?; simplify_eq. exists m, d, dv, t, ov.
  split_and!; try done.
  - intros ->. unfold ov. by rewrite lookup_insert_ne, lookup_insert_eq.
  - intros Hdv. unfold ov. rewrite lookup_insert_ne, lookup_insert_eq by done.
    by destruct dv.
  - by rewrite <- !app_assoc.
Qed.

(** X17. When [cfg] has no model, no data or no device attribute, [train]
    raises on reading it: [cfg.batch] is not assigned, and no call into the
    framework has been made. *)
Theorem train_raises_without_attribute use_python cfg log :
  cfg !! "model" = None ∨ cfg !! "data" = None ∨ cfg !! "device" = None →
  train ext imp use_python (cfg, log) = (None, (cfg, log)).
Proof.
  unfold train. unfold_E. simpl. intros Hn.
  destruct (cfg !! "model") as [m|] eqn:Em; simpl; [|done].
  destruct (cfg !! "data") as [d|] eqn:Ed; simpl; [|done].
  destruct (cfg !! "device") as [dv|] eqn:Edv; simpl; [|done].
  by destruct Hn as [?|[?|?]].
Qed.

End MethodsProps.

Lemma loss_names_label_the_loss_vector_witness :
  ∃ fr names,
    run (H:=fw) (demo_self true half) demo_preds demo_batch = Some fr ∧
    loss_names (get_validator demo_ext (demo_attrs, [])).2.1 = Some names ∧
    length (fr_result fr).2 = length names.
Proof.
  destruct demo_run_fg as (fr & Hrun & _).
  destruct (loss_names_label_the_loss_vector (H:=fw) demo_ext (demo_attrs, [])
              (demo_self true half) demo_preds demo_batch (fr_result fr))
    as (names & Hn & _ & Hlen & _).
  - unfold PoseLoss.__call__. rewrite Hrun. reflexivity.
  - exists fr, names. split_and!; [exact Hrun|exact Hn|exact Hlen].
Defined.

(** The calls of a plot of iteration 7. *)
Lemma demo_plot_log :
  (plot_training_samples demo_ext demo_plot_batch 7 (demo_attrs, [])).2.2
  = [EvSqueeze (H:=fw) (PObj 12);
     EvPathJoin (H:=fw) (PStr "runs/pose") (train_batch_name 7);
     EvPlotImages (H:=fw) (PObj 10) (PObj 15) (PObj 12) (PObj 13) (PObj 11)
       (PObj 14) (PStr (train_batch_name 7))].
Proof. reflexivity. Defined.

Lemma plot_file_names_distinct_witness :
  EvPathJoin (H:=fw) (PStr "runs/pose") (train_batch_name 7)
    ∈ (plot_training_samples demo_ext demo_plot_batch 7 (demo_attrs, [])).2.2 ∧
  7%Z = 7%Z.
Proof.
  assert (Hin : EvPathJoin (H:=fw) (PStr "runs/pose") (train_batch_name 7)
            ∈ (plot_training_samples demo_ext demo_plot_batch 7 (demo_attrs, [])).2.2).
  { rewrite demo_plot_log. right. left. }
  split; [exact Hin|].
  exact (plot_file_names_distinct (H:=fw) demo_ext _ _ _ _ _ _ _ _ _ Hin Hin).
Defined.

Lemma plot_raises_without_a_key_witness :
  ∃ evs,
    plot_training_samples demo_ext (delete "bboxes" demo_plot_batch) 7 (demo_attrs, [])
    = (None, (demo_attrs, evs)).
Proof.
  destruct (plot_raises_without_a_key (H:=fw) demo_ext
              (delete "bboxes" demo_plot_batch) 7 (demo_attrs, []) "bboxes")
    as (evs & Hp & _).
  - do 3 right. left.
  - reflexivity.
  - exists evs. exact Hp.
Defined.

(** The run of [train] on [demo_cfg] with the trainer returns. *)
Lemma demo_train_returns :
  ∃ cfg' log',
    train demo_ext demo_imports (PBool false) (demo_cfg, []) = (Some (), (cfg', log')).
Proof.
  exists (<["batch" := PInt 1]> demo_cfg).
  exists [EvTrainer (H:=fw)
            (CallDetectionTrainer (H:=fw) (PStr "default.yaml")
               (<["task" := PStr "pose"]> (<["device" := PInt 0]>
                  (<["data" := PStr "coco8-pose.yaml"]>
                     (<["model" := PStr "yolov8n-pose.yaml"]> ∅)))));
          EvTrain (H:=fw)
            (mkTrainer (H:=fw)
               (<["task" := PStr "pose"]> (<["device" := PInt 0]>
                  (<["data" := PStr "coco8-pose.yaml"]>
                     (<["model" := PStr "yolov8n-pose.yaml"]> ∅))))
               0%nat None)].
  reflexivity.
Defined.

Lemma train_constructs_pose_trainer_witness :
  ∃ t (ov : gmap string pyval),
    ov !! "task" = Some (PStr "pose") ∧
    (train demo_ext demo_imports (PBool false) (demo_cfg, [])).2.2
    = [EvTrainer (CallDetectionTrainer (PStr "default.yaml") ov); EvTrain t].
Proof.
  destruct demo_train_returns as (cfg' & log' & Ht).
  destruct (train_constructs_pose_trainer (H:=fw) demo_ext demo_imports (PBool false)
              _ _ _ _ _ eq_refl Ht)
    as (m & d & dv & t & ov & _ & _ & _ & _ & Htask & _ & _ & _ & _ & _ & _ & Hlog).
  exists t, ov. split; [exact Htask|]. rewrite Ht. exact Hlog.
Defined.

Lemma train_raises_without_attribute_witness :
  train demo_ext demo_imports (PBool false) (delete "device" demo_cfg, [])
  = (None, (delete "device" demo_cfg, [])).
Proof.
  apply (train_raises_without_attribute (H:=fw) demo_ext demo_imports).
  right. right. reflexivity.
Defined.
